(** * Reference (src/lib/modules/database/reference.js)

    A shallow embedding of the [Reference] class of the realtime-database
    module: the fluent query builders, path navigation, the serialisation
    helpers and the operations that cross the native bridge (set, push,
    on, once, transaction).

    Conventions of the embedding.
    - JavaScript values are the inductive [JsValue]; functions are known
      by identity, their behaviour is given by the environment.
    - The arrays of query modifiers live in a store and are passed around
      by location, so that two queries sharing one array would see each
      other's updates.
    - Methods run in the monad [M]: the store and the trace of calls made
      to collaborators are threaded, and a [Throw] is a synchronous
      JavaScript exception.
    - A pending result is represented by its eventual state; the outcome
      of the native call is an input of the method.
    - [this.log.debug] calls, and the handle string built for them, are
      not modelled: they reach no collaborator that a method below
      talks to.  [off] and [onDisconnect], which hand their arguments to
      a collaborator and return what it returns, are left out. *)

From Stdlib Require Import ZArith String Ascii List Lia.
From stdpp Require Import base list strings.

Open Scope string_scope.

Set Warnings "-register-all".

(** ** JavaScript values *)

(** A [Reference] object: the path assigned once by the base constructor
    and the location of the modifier array owned by its [Query].  No
    method of reference.js assigns either field after construction. *)
Record Reference := mkReference {
  path : string;
  query : nat
}.

(** The values the methods receive and hand out.  Payload values are the
    kinds the transport accepts (null, boolean, number, string, mapping);
    numbers are integral or NaN, which is all [typeof] and truthiness
    observe.  [JSnapshot r data] is [new Snapshot(r, data)]: the Snapshot
    class is not in src, it is kept as the wrapper of a read result bound
    to the Reference that produced it. *)
Inductive JsValue :=
| JUndefined
| JNull
| JBool (b : bool)
| JNumber (n : Z)
| JNaN
| JString (s : string)
| JFunction (f : nat)
| JObject (fields : list (string * JsValue))
| JReference (r : Reference)
| JSnapshot (r : Reference) (data : JsValue).

(** [typeof value] *)
Definition typeof (value : JsValue) : string :=
  match value with
  | JUndefined => "undefined"
  | JNull => "object"
  | JBool _ => "boolean"
  | JNumber _ | JNaN => "number"
  | JString _ => "string"
  | JFunction _ => "function"
  | JObject _ | JReference _ | JSnapshot _ _ => "object"
  end.

(** ToBoolean, as applied by [if (v)] and [v && ...]. *)
Definition truthy (value : JsValue) : bool :=
  match value with
  | JUndefined | JNull | JNaN => false
  | JBool b => b
  | JNumber n => negb (n =? 0)%Z
  | JString s => negb (String.eqb s EmptyString)
  | JFunction _ | JObject _ | JReference _ | JSnapshot _ _ => true
  end.

(** [value === null || value === undefined] *)
Definition is_null_or_undefined (value : JsValue) : bool :=
  match value with
  | JNull | JUndefined => true
  | _ => false
  end.

(** [new Error(message)] *)
Definition new_Error (message : string) : JsValue :=
  JObject [("message", JString message)].

(** A default parameter value: used when the argument is [undefined]. *)
Definition default_param (arg dflt : JsValue) : JsValue :=
  match arg with
  | JUndefined => dflt
  | _ => arg
  end.

(** Modelled from the spec: [isFunction] of utils is not in src; the spec
    calls it the check that a callback is invocable. *)
Definition isFunction (item : JsValue) : bool :=
  match item with
  | JFunction _ => true
  | _ => false
  end.

(** Modelled from the spec: [isObject] of utils is not in src; the spec
    calls it the structural check for a plain mapping, false for [null]. *)
Definition isObject (item : JsValue) : bool :=
  match item with
  | JObject _ => true
  | _ => false
  end.

(** ** Strings *)

(** [s.lastIndexOf(c)], -1 when [c] does not occur. *)
Fixpoint lastIndexOf (c : ascii) (s : string) : Z :=
  match s with
  | EmptyString => -1
  | String a s' =>
      let later := lastIndexOf c s' in
      if (0 <=? later)%Z then (later + 1)%Z
      else if Ascii.eqb a c then 0%Z else (-1)%Z
  end.

(** [s.substring(a, b)]: both indices are clamped to the string and
    swapped when out of order. *)
Definition js_substring (s : string) (a b : Z) : string :=
  let len := Z.of_nat (String.length s) in
  let clamp x := Z.max 0 (Z.min x len) in
  let lo := Z.min (clamp a) (clamp b) in
  let hi := Z.max (clamp a) (clamp b) in
  substring (Z.to_nat lo) (Z.to_nat (hi - lo)) s.

(** Whether a path segment contains no slash. *)
Fixpoint slash_free (s : string) : bool :=
  match s with
  | EmptyString => true
  | String a s' => negb (Ascii.eqb a "/") && slash_free s'
  end.

(** The non-empty segments of a slash-delimited path, accumulated in
    [cur]; the node a path denotes. *)
Fixpoint segments_from (cur : string) (s : string) : list string :=
  match s with
  | EmptyString => if String.eqb cur EmptyString then [] else [cur]
  | String a s' =>
      if Ascii.eqb a "/"
      then (if String.eqb cur EmptyString then [] else [cur]) ++ segments_from EmptyString s'
      else segments_from (cur ++ String a EmptyString)%string s'
  end.

Definition segments (p : string) : list string := segments_from EmptyString p.

(** Whether a path has two slashes in a row: an empty segment, which a
    normalised path does not have. *)
Fixpoint doubled_slash (s : string) : bool :=
  match s with
  | String a (String b _ as s') =>
      (Ascii.eqb a "/" && Ascii.eqb b "/") || doubled_slash s'
  | _ => false
  end.

(** ** The store, the trace and the monad *)

(** A query modifier as query.js stores it. *)
Definition Modifier := JsValue.

(** The completion adapter handed to the transaction queue: the closure
    [onCompleteWrapper] over [this] and [onComplete]. *)
Record Adapter := mkAdapter {
  adapter_this : Reference;
  adapter_onComplete : JsValue
}.

(** Calls that leave the class, in program order. *)
Inductive Event :=
| NativeKeepSynced (p : string) (b : JsValue)
| NativeSet (p : string) (value : JsValue)
| NativeUpdate (p : string) (value : JsValue)
| NativeRemove (p : string)
| NativePush (p : string) (value : JsValue)
| NativeOnce (p modifiersString : string) (modifiers : list Modifier)
             (eventType : JsValue)
| DatabaseOn (p modifiersString : string) (modifiers : list Modifier)
             (eventType successCallback failureCallback : JsValue)
| TransactionAdd (r : Reference) (transactionUpdate : JsValue)
                 (onCompleteWrapper : Adapter) (applyLocally : JsValue)
| Invoke (f : nat) (args : list JsValue)
| Resolve (value : JsValue)
| Reject (error : JsValue).

Record World := mkWorld {
  arrays : list (list Modifier);
  trace : list Event;
  pushCount : nat;
  serverTimeOffset : Z
}.

Definition with_arrays (w : World) (a : list (list Modifier)) : World :=
  mkWorld a (trace w) (pushCount w) (serverTimeOffset w).

Definition with_trace (w : World) (t : list Event) : World :=
  mkWorld (arrays w) t (pushCount w) (serverTimeOffset w).

Definition with_pushCount (w : World) (n : nat) : World :=
  mkWorld (arrays w) (trace w) n (serverTimeOffset w).

(** The result of running a piece of code: a value or an exception. *)
Inductive Res (A : Type) :=
| Ret (a : A)
| Throw (e : JsValue).
Arguments Ret {A} a.
Arguments Throw {A} e.

Definition M (A : Type) : Type := World -> Res A * World.

Definition ret {A} (a : A) : M A := fun w => (Ret a, w).

Definition throw {A} (e : JsValue) : M A := fun w => (Throw e, w).

Definition bind {A B} (m : M A) (k : A -> M B) : M B :=
  fun w =>
    match m w with
    | (Ret a, w') => k a w'
    | (Throw e, w') => (Throw e, w')
    end.

Declare Scope js_scope.
Delimit Scope js_scope with js.
Notation "'let!' x := m 'in' k" := (bind m (fun x => k))
  (at level 10, x name, m at level 100, k at level 200) : js_scope.
Notation "m ;;; k" := (bind m (fun _ => k))
  (at level 100, k at level 200, right associativity) : js_scope.
Open Scope js_scope.

Definition lift {A} (r : Res A) : M A := fun w => (r, w).

Definition emit (e : Event) : M unit :=
  fun w => (Ret tt, with_trace w (trace w ++ [e])).

(** Allocation of a fresh array holding [ms]. *)
Definition alloc (ms : list Modifier) : M nat :=
  fun w => (Ret (length (arrays w)), with_arrays w (arrays w ++ [ms])).

(** The content of the array at [l]. *)
Definition content (w : World) (l : nat) : list Modifier :=
  default [] (arrays w !! l).

Definition read (l : nat) : M (list Modifier) :=
  fun w => (Ret (content w l), w).

(** In-place update of the array at [l]. *)
Definition write (l : nat) (ms : list Modifier) : M unit :=
  fun w => (Ret tt, with_arrays w (<[l := ms]> (arrays w))).

(** ** Pending results *)

(** The eventual state of a pending result. *)
Inductive Promise (A : Type) :=
| Pending
| Fulfilled (a : A)
| Rejected (e : JsValue).
Arguments Pending {A}.
Arguments Fulfilled {A} a.
Arguments Rejected {A} e.

(** What a [then]/[catch] handler returns: a plain value, or a pending
    result such as [Promise.reject(e)] that the chain adopts. *)
Inductive Returned (A : Type) :=
| Value (a : A)
| Thenable (p : Promise A).
Arguments Value {A} a.
Arguments Thenable {A} p.

(** How the promise built by [then]/[catch] ends, given how its handler
    ran: an exception in the handler is a rejection. *)
Definition adopt {A} (r : Res (Returned A)) : Promise A :=
  match r with
  | Ret (Value a) => Fulfilled a
  | Ret (Thenable p) => p
  | Throw e => Rejected e
  end.

(** [p.then(onFulfilled)] *)
Definition then_ {A B} (p : Promise A) (onFulfilled : A -> M (Returned B))
  : M (Promise B) :=
  fun w =>
    match p with
    | Pending => (Ret Pending, w)
    | Fulfilled a => let (r, w') := onFulfilled a w in (Ret (adopt r), w')
    | Rejected e => (Ret (Rejected e), w)
    end.

(** [p.catch(onRejected)] *)
Definition catch_ {A} (p : Promise A) (onRejected : JsValue -> M (Returned A))
  : M (Promise A) :=
  fun w =>
    match p with
    | Pending => (Ret Pending, w)
    | Fulfilled a => (Ret (Fulfilled a), w)
    | Rejected e => let (r, w') := onRejected e w in (Ret (adopt r), w')
    end.

(** How the native bridge answers one call. *)
Inductive NativeResult (A : Type) :=
| Resolves (payload : A)
| Rejects (error : JsValue).
Arguments Resolves {A} payload.
Arguments Rejects {A} error.

(** [promisify(method, FirebaseDatabase)(...args)]: the call crosses the
    bridge and the pending result ends as the bridge answers. *)
Definition promisify {A} (call : Event) (native : NativeResult A)
  : M (Promise A) :=
  emit call ;;;
  ret (match native with
       | Resolves a => Fulfilled a
       | Rejects e => Rejected e
       end).

(** A pending result settles on the first [resolve]/[reject] call. *)
Definition settle (p : Promise JsValue) (e : Event) : Promise JsValue :=
  match p, e with
  | Pending, Resolve v => Fulfilled v
  | Pending, Reject err => Rejected err
  | _, _ => p
  end.

(** ** Collaborators *)

(** The code that reference.js calls and that is not in src: the [Query]
    class, the utils module, the error mapper of the database object, and
    the functions supplied by the caller. *)
Class Env := {
  (** query.js: what [setOrderBy(name, key)], [setLimit(name, limit)] and
      [setFilter(name, value, key)] make of the query's own modifier
      array, or the error they throw. *)
  setOrderBy : string -> JsValue -> list Modifier -> Res (list Modifier);
  setLimit : string -> JsValue -> list Modifier -> Res (list Modifier);
  setFilter : string -> JsValue -> JsValue -> list Modifier
              -> Res (list Modifier);
  (** query.js: the encoded key of a modifier sequence. *)
  encodeModifiers : list Modifier -> string;
  (** database: [_toFirebaseError]. *)
  _toFirebaseError : JsValue -> JsValue;
  (** utils: the n-th identifier [generatePushID] hands out for a
      server-time offset. *)
  generatePushID : Z -> nat -> string;
  (** utils: [tryJSONStringify] and [tryJSONParse]. *)
  tryJSONStringify : JsValue -> JsValue;
  tryJSONParse : JsValue -> JsValue;
  (** How a function supplied by the caller ends when called. *)
  invoke : nat -> list JsValue -> Res JsValue
}.

(** ** The Reference class *)

Section ReferenceClass.
Context `{Env}.

(** *** Query, as far as Reference uses it *)

(** Modelled from the spec: the constructor of [Query] (query.js is not in
    src) gives the new query a copied modifier set: a fresh array with
    the content of [existingModifiers], or an empty one when none is
    passed. *)
Definition new_Query (existingModifiers : option nat) : M nat :=
  match existingModifiers with
  | Some l => let! ms := read l in alloc ms
  | None => alloc []
  end.

(** Modelled from the spec: [getModifiers()] of [Query] returns the ordered
    sequence of modifiers; the spec does not say that it copies, so the
    query's own array is returned. *)
Definition getModifiers (this : Reference) : M nat :=
  ret (query this).

(** Modelled from the spec: [getModifiersString()] of [Query] returns the
    encoded key, a function of the current modifier sequence. *)
Definition getModifiersString (this : Reference) : M string :=
  let! ms := read (query this) in
  ret (encodeModifiers ms).

(** A setter of [Query] run on the query of [this]: it updates the
    query's own array in place, or throws. *)
Definition run_setter (this : Reference)
    (setter : list Modifier -> Res (list Modifier)) : M unit :=
  let! ms := read (query this) in
  let! ms' := lift (setter ms) in
  write (query this) ms'.

(** *** Construction *)

(** Modelled from the spec: [ReferenceBase] (base.js is not in src) keeps
    the path it is given; the constructor of [Reference] then builds the
    query. *)
Definition new_Reference (p : string) (existingModifiers : option nat)
  : M Reference :=
  let! q := new_Query existingModifiers in
  ret (mkReference p q).

(** *** Modifiers, limits, filters *)

Definition orderBy (this : Reference) (name : string) (key : JsValue)
  : M Reference :=
  let! existing := getModifiers this in
  let! newRef := new_Reference (path this) (Some existing) in
  run_setter newRef (setOrderBy name key) ;;;
  ret newRef.

Definition orderByKey (this : Reference) : M Reference :=
  orderBy this "orderByKey" JUndefined.

Definition orderByPriority (this : Reference) : M Reference :=
  orderBy this "orderByPriority" JUndefined.

Definition orderByValue (this : Reference) : M Reference :=
  orderBy this "orderByValue" JUndefined.

Definition orderByChild (this : Reference) (key : JsValue) : M Reference :=
  orderBy this "orderByChild" key.

Definition limit (this : Reference) (name : string) (limit : JsValue)
  : M Reference :=
  let! existing := getModifiers this in
  let! newRef := new_Reference (path this) (Some existing) in
  run_setter newRef (setLimit name limit) ;;;
  ret newRef.

Definition limitToLast (this : Reference) (n : JsValue) : M Reference :=
  limit this "limitToLast" n.

Definition limitToFirst (this : Reference) (n : JsValue) : M Reference :=
  limit this "limitToFirst" n.

Definition filter (this : Reference) (name : string) (value key : JsValue)
  : M Reference :=
  let! existing := getModifiers this in
  let! newRef := new_Reference (path this) (Some existing) in
  run_setter newRef (setFilter name value key) ;;;
  ret newRef.

Definition equalTo (this : Reference) (value key : JsValue) : M Reference :=
  filter this "equalTo" value key.

Definition endAt (this : Reference) (value key : JsValue) : M Reference :=
  filter this "endAt" value key.

Definition startAt (this : Reference) (value key : JsValue) : M Reference :=
  filter this "startAt" value key.

(** *** Navigation *)

Definition child (this : Reference) (p : string) : M Reference :=
  new_Reference (path this ++ "/" ++ p) None.

Definition toString (this : Reference) : string := path this.

(** The [parent] getter; [None] is [null]. *)
Definition parent (this : Reference) : M (option Reference) :=
  if String.eqb (path this) "/" then ret None
  else
    let! r := new_Reference
                (js_substring (path this) 0 (lastIndexOf "/" (path this)))
                None in
    ret (Some r).

(** The [root] getter. *)
Definition root (this : Reference) : M Reference :=
  new_Reference "/" None.

(** *** Internals *)

Definition _serializeObject (obj : JsValue) : JsValue :=
  if negb (isObject obj) then obj
  else tryJSONParse (tryJSONStringify obj).

Definition _serializeAnyType (value : JsValue) : JsValue :=
  if isObject value then
    JObject [("type", JString "object"); ("value", _serializeObject value)]
  else
    JObject [("type", JString (typeof value)); ("value", value)].

(** *** Operations that cross the bridge *)

(** A call [f(...args)]: a non-function cannot be called. *)
Definition call (f : JsValue) (args : list JsValue) : M JsValue :=
  match f with
  | JFunction id => emit (Invoke id args) ;;; lift (invoke id args)
  | _ => throw (new_Error "not a function")
  end.

Definition keepSynced (this : Reference) (b : JsValue)
    (native : NativeResult JsValue) : M (Promise JsValue) :=
  let p := path this in
  promisify (NativeKeepSynced p b) native.

Definition set (this : Reference) (value : JsValue)
    (native : NativeResult JsValue) : M (Promise JsValue) :=
  let p := path this in
  let _value := _serializeAnyType value in
  promisify (NativeSet p _value) native.

Definition update (this : Reference) (val : JsValue)
    (native : NativeResult JsValue) : M (Promise JsValue) :=
  let p := path this in
  let value := _serializeObject val in
  promisify (NativeUpdate p value) native.

Definition remove (this : Reference) (native : NativeResult JsValue)
  : M (Promise JsValue) :=
  promisify (NativeRemove (path this)) native.

(** [generatePushID(this.database.serverTimeOffset)]: the generator is
    fed the offset the database object holds, and moves on. *)
Definition next_push_id : M string :=
  fun w =>
    (Ret (generatePushID (serverTimeOffset w) (pushCount w)),
     with_pushCount w (S (pushCount w))).

(** What [push] returns: a Reference at once, or a pending result. *)
Inductive PushReturn :=
| PushedReference (r : Reference)
| PushedPromise (p : Promise JsValue).

(** [push(value, onComplete)]; the bridge answers with the path [ref] of
    the new child. *)
Definition push (this : Reference) (value onComplete : JsValue)
    (native : NativeResult string) : M PushReturn :=
  if is_null_or_undefined value then
    let! id := next_push_id in
    let! r := new_Reference (path this ++ "/" ++ id) None in
    ret (PushedReference r)
  else
    let p := path this in
    let _value := _serializeAnyType value in
    let! sent := promisify (NativePush p _value) native in
    let! made := then_ sent (fun ref =>
      let! newRef := new_Reference ref None in
      if isFunction onComplete then
        let! v := call onComplete [JNull; JReference newRef] in
        ret (Value v)
      else ret (Value (JReference newRef))) in
    let! handled := catch_ made (fun e =>
      if isFunction onComplete then
        let! v := call onComplete [e; JNull] in
        ret (Value v)
      else ret (Value e)) in
    ret (PushedPromise handled).

Definition on (this : Reference)
    (eventType successCallback failureCallback : JsValue) : M JsValue :=
  if negb (isFunction successCallback) then
    throw (new_Error "The specified callback must be a function")
  else if truthy failureCallback && negb (isFunction failureCallback) then
    throw (new_Error "The specified error callback must be a function")
  else
    let p := path this in
    let! modifiers := getModifiers this in
    let! modifiersString := getModifiersString this in
    let! ms := read modifiers in
    emit (DatabaseOn p modifiersString ms eventType
            successCallback failureCallback) ;;;
    ret successCallback.

(** [once(eventType = 'value', successCallback, failureCallback)]; the
    bridge answers with the raw [snapshot]. *)
Definition once (this : Reference)
    (eventType successCallback failureCallback : JsValue)
    (native : NativeResult JsValue) : M (Promise JsValue) :=
  let eventType := default_param eventType (JString "value") in
  let p := path this in
  let! modifiers := getModifiers this in
  let! modifiersString := getModifiersString this in
  let! ms := read modifiers in
  let! sent := promisify (NativeOnce p modifiersString ms eventType) native in
  let! wrapped := then_ sent (fun snapshot =>
    ret (Value (JSnapshot this snapshot))) in
  let! delivered := then_ wrapped (fun snapshot =>
    (if isFunction successCallback
     then call successCallback [snapshot] ;;; ret tt
     else ret tt) ;;;
    ret (Value snapshot)) in
  catch_ delivered (fun error =>
    let firebaseError := _toFirebaseError error in
    if isFunction failureCallback then
      let! v := call failureCallback [firebaseError] in
      ret (Value v)
    else ret (Thenable (Rejected firebaseError))).

(** The body of the completion adapter of [transaction]. *)
Definition onCompleteWrapper (a : Adapter)
    (error committed snapshotData : JsValue) : M unit :=
  let this := adapter_this a in
  let onComplete := adapter_onComplete a in
  if truthy error then
    (if String.eqb (typeof onComplete) "function"
     then call onComplete [error; committed; JNull] ;;; ret tt
     else ret tt) ;;;
    emit (Reject error)
  else
    let snapshot := JSnapshot this snapshotData in
    (if String.eqb (typeof onComplete) "function"
     then call onComplete [JNull; committed; snapshot] ;;; ret tt
     else ret tt) ;;;
    emit (Resolve (JObject [("committed", committed);
                            ("snapshot", snapshot)])).

(** The calls [(error, committed, snapshotData)] the transaction queue
    makes to the adapter it was given; an exception of the adapter goes
    to the queue. *)
Fixpoint run_completions (a : Adapter)
    (completions : list (JsValue * JsValue * JsValue)) : M unit :=
  match completions with
  | [] => ret tt
  | (error, committed, snapshotData) :: rest =>
      fun w =>
        let (_, w') := onCompleteWrapper a error committed snapshotData w in
        run_completions a rest w'
  end.

(** [transaction(transactionUpdate, onComplete, applyLocally = false)];
    [completions] are the calls the queue makes to the adapter. *)
Definition transaction (this : Reference)
    (transactionUpdate onComplete applyLocally : JsValue)
    (completions : list (JsValue * JsValue * JsValue))
  : M (Promise JsValue) :=
  let applyLocally := default_param applyLocally (JBool false) in
  if negb (isFunction transactionUpdate) then
    ret (Rejected
           (new_Error "Missing transactionUpdate function argument."))
  else
    fun w =>
      let adapter := mkAdapter this onComplete in
      let (_, w') :=
        (emit (TransactionAdd this transactionUpdate adapter applyLocally) ;;;
         run_completions adapter completions) w in
      (Ret (fold_left settle (drop (length (trace w)) (trace w')) Pending),
       w').

(** *** The fluent builders as one family *)

Inductive Builder :=
| OrderByKey
| OrderByPriority
| OrderByValue
| OrderByChild (key : JsValue)
| LimitToLast (n : JsValue)
| LimitToFirst (n : JsValue)
| EqualTo (value key : JsValue)
| EndAt (value key : JsValue)
| StartAt (value key : JsValue).

(** The builder method a call names. *)
Definition build (b : Builder) (this : Reference) : M Reference :=
  match b with
  | OrderByKey => orderByKey this
  | OrderByPriority => orderByPriority this
  | OrderByValue => orderByValue this
  | OrderByChild key => orderByChild this key
  | LimitToLast n => limitToLast this n
  | LimitToFirst n => limitToFirst this n
  | EqualTo value key => equalTo this value key
  | EndAt value key => endAt this value key
  | StartAt value key => startAt this value key
  end.

(** The one modifier a builder applies: the call it makes to a setter of
    [Query]. *)
Definition modifier_of (b : Builder) : list Modifier -> Res (list Modifier) :=
  match b with
  | OrderByKey => setOrderBy "orderByKey" JUndefined
  | OrderByPriority => setOrderBy "orderByPriority" JUndefined
  | OrderByValue => setOrderBy "orderByValue" JUndefined
  | OrderByChild key => setOrderBy "orderByChild" key
  | LimitToLast n => setLimit "limitToLast" n
  | LimitToFirst n => setLimit "limitToFirst" n
  | EqualTo value key => setFilter "equalTo" value key
  | EndAt value key => setFilter "endAt" value key
  | StartAt value key => setFilter "startAt" value key
  end.

(** The modifier sequence and the encoded key of a Reference in a store. *)
Definition modifiers_of (w : World) (r : Reference) : list Modifier :=
  content w (query r).

Definition key_of (w : World) (r : Reference) : string :=
  encodeModifiers (modifiers_of w r).

End ReferenceClass.

(** Unfolding of the monad and of the store primitives. *)
Ltac unfold_monad :=
  unfold bind, ret, throw, lift, emit, read, alloc, write.

(** Unfolding of the construction of a Reference. *)
Ltac unfold_new :=
  unfold new_Reference, new_Query; unfold_monad.

(** ** A concrete environment

    Collaborators to run the class on concrete inputs.  The setters
    append a record of their arguments, and [setOrderBy] refuses
    [orderByChild] without a child key; function 0 returns [undefined],
    function 1 returns a string, any other function throws. *)

Definition example_modifier (kind name : string)
    (args : list (string * JsValue)) : Modifier :=
  JObject (("type", JString kind) :: ("name", JString name) :: args).

Definition example_modifier_name (m : Modifier) : string :=
  match m with
  | JObject (_ :: (_, JString name) :: _) => name
  | _ => EmptyString
  end.

Definition example_setOrderBy (name : string) (key : JsValue)
    (ms : list Modifier) : Res (list Modifier) :=
  if String.eqb name "orderByChild" && negb (truthy key)
  then Throw (new_Error "orderByChild needs a child key")
  else Ret (ms ++ [example_modifier "orderBy" name [("key", key)]])%list.

Definition example_invoke (f : nat) (args : list JsValue) : Res JsValue :=
  match f with
  | 0 => Ret JUndefined
  | 1 => Ret (JString "handled")
  | _ => Throw (new_Error "callback failed")
  end.

Definition example_env : Env := {|
  setOrderBy := example_setOrderBy;
  setLimit name n ms :=
    Ret (ms ++ [example_modifier "limit" name [("limit", n)]])%list;
  setFilter name value key ms :=
    Ret (ms ++ [example_modifier "filter" name
                  [("value", value); ("key", key)]])%list;
  encodeModifiers ms := String.concat "|" (map example_modifier_name ms);
  _toFirebaseError e :=
    JObject [("code", JString "DATABASE/UNKNOWN"); ("nativeError", e)];
  generatePushID offset n :=
    "-K" ++ String (ascii_of_nat (48 + n)) EmptyString;
  tryJSONStringify v := v;
  tryJSONParse v := v;
  invoke := example_invoke
|}.

(** A store holding the empty array of one Reference at [/users]. *)
Definition example_world : World := mkWorld [[]] [] 0 0.

Definition example_ref : Reference := mkReference "/users" 0.

(** ** Chains of fluent calls *)

Section Chaining.
Context `{Env}.

(** A chain [r.b1().b2()...]: each builder is called on the Reference
    that the call before it returned. *)
Fixpoint build_all (bs : list Builder) (this : Reference) : M Reference :=
  match bs with
  | [] => ret this
  | b :: rest => let! next := build b this in build_all rest next
  end.

(** The setter calls of a chain, run in call order on one modifier
    sequence; the first refusal ends the chain. *)
Fixpoint modifiers_after (bs : list Builder) (ms : list Modifier)
  : Res (list Modifier) :=
  match bs with
  | [] => Ret ms
  | b :: rest =>
      match modifier_of b ms with
      | Ret ms' => modifiers_after rest ms'
      | Throw e => Throw e
      end
  end.

(** What the catch handler of [once] makes of an error [x]: the mapped
    error goes to an invocable [failureCallback], whose outcome ends the
    pending result, or into a rejection. *)
Definition once_failure (failureCallback x : JsValue) (w : World)
  : Res (Promise JsValue) * World :=
  match failureCallback with
  | JFunction g =>
      (Ret (match invoke g [_toFirebaseError x] with
            | Ret v => Fulfilled v
            | Throw y => Rejected y
            end),
       with_trace w (trace w ++ [Invoke g [_toFirebaseError x]]))
  | _ => (Ret (Rejected (_toFirebaseError x)), w)
  end.

End Chaining.

(** ** Store lemmas *)

Lemma content_alloc_old (w : World) (ms : list Modifier) (l : nat) :
  l < length (arrays w) ->
  content (with_arrays w (arrays w ++ [ms])) l = content w l.
Proof.
  intros Hl. unfold content. simpl.
  by rewrite lookup_app_l.
Qed.

Lemma content_alloc_new (w : World) (ms : list Modifier) :
  content (with_arrays w (arrays w ++ [ms])) (length (arrays w)) = ms.
Proof.
  unfold content. simpl.
  by rewrite list_lookup_middle.
Qed.

Lemma insert_last (A : Type) (l : list A) (x y : A) :
  <[length l := y]> (l ++ [x])%list = (l ++ [y])%list.
Proof.
  rewrite insert_app_r_alt by lia.
  by rewrite Nat.sub_diag.
Qed.

(** ** Fluent builders *)

Section Builders.
Context `{Env}.

(** The three private builders share one shape: construct on a copy, run
    one setter on the copy. *)
Lemma derive_spec (this : Reference)
    (setter : list Modifier -> Res (list Modifier)) (w : World) :
  (let! existing := getModifiers this in
   let! newRef := new_Reference (path this) (Some existing) in
   run_setter newRef setter ;;;
   ret newRef) w =
  match setter (modifiers_of w this) with
  | Ret ms' =>
      (Ret (mkReference (path this) (length (arrays w))),
       with_arrays w (arrays w ++ [ms']))
  | Throw e =>
      (Throw e, with_arrays w (arrays w ++ [modifiers_of w this]))
  end.
Proof.
  unfold getModifiers, run_setter, modifiers_of. unfold_new.
  cbn [query path arrays with_arrays].
  rewrite content_alloc_new.
  destruct (setter (content w (query this))) as [ms'|e]; [|done].
  unfold with_arrays. cbn [arrays trace pushCount serverTimeOffset].
  by rewrite insert_last.
Qed.

Lemma build_spec (b : Builder) (this : Reference) (w : World) :
  build b this w =
  match modifier_of b (modifiers_of w this) with
  | Ret ms' =>
      (Ret (mkReference (path this) (length (arrays w))),
       with_arrays w (arrays w ++ [ms']))
  | Throw e =>
      (Throw e, with_arrays w (arrays w ++ [modifiers_of w this]))
  end.
Proof.
  destruct b; apply derive_spec.
Qed.

(** C1. Calling a fluent builder on a Reference [R] leaves [R] as it was:
    its modifier sequence and its encoded key are the same in the store
    after the call, every array that existed is untouched and nothing is
    sent to a collaborator ([R]'s path is a field no method assigns).
    The call returns a new Reference with [R]'s path and an array of its
    own, not allocated before, that holds [R]'s modifiers with the one
    modifier of the builder applied; when the setter of [Query] refuses
    the modifier, its error is thrown instead. *)
Theorem builder_returns_new_reference_and_keeps_receiver
    (w : World) (R : Reference) (b : Builder) :
  query R < length (arrays w) ->
  let '(r, w') := build b R w in
  modifiers_of w' R = modifiers_of w R /\
  key_of w' R = key_of w R /\
  getModifiersString R w' = (Ret (key_of w R), w') /\
  (forall l, l < length (arrays w) -> arrays w' !! l = arrays w !! l) /\
  trace w' = trace w /\
  match modifier_of b (modifiers_of w R) with
  | Ret ms' =>
      exists newRef,
        r = Ret newRef /\
        path newRef = path R /\
        query newRef = length (arrays w) /\
        query newRef <> query R /\
        modifiers_of w' newRef = ms'
  | Throw e => r = Throw e
  end.
Proof.
  intros HR. rewrite build_spec.
  assert (Hframe : forall ms,
    modifiers_of (with_arrays w (arrays w ++ [ms])) R = modifiers_of w R).
  { intros ms. by apply content_alloc_old. }
  assert (Hkey : forall ms,
    getModifiersString R (with_arrays w (arrays w ++ [ms])) =
    (Ret (key_of w R), with_arrays w (arrays w ++ [ms]))).
  { intros ms. unfold getModifiersString, key_of. unfold_monad.
    fold (modifiers_of (with_arrays w (arrays w ++ [ms])) R).
    by rewrite Hframe. }
  assert (Hold : forall ms l, l < length (arrays w) ->
    arrays (with_arrays w (arrays w ++ [ms])) !! l = arrays w !! l).
  { intros ms l Hl. simpl. by rewrite lookup_app_l. }
  destruct (modifier_of b (modifiers_of w R)) as [ms'|e].
  - split; [apply Hframe|].
    split; [unfold key_of; by rewrite Hframe|].
    split; [apply Hkey|].
    split; [apply Hold|].
    split; [done|].
    exists (mkReference (path R) (length (arrays w))).
    split; [done|]. split; [done|]. split; [done|].
    split; [simpl; lia|].
    apply content_alloc_new.
  - split; [apply Hframe|].
    split; [unfold key_of; by rewrite Hframe|].
    split; [apply Hkey|].
    split; [apply Hold|].
    done.
Qed.

End Builders.

Lemma builder_keeps_receiver_witness :
  query example_ref < length (arrays example_world) /\
  modifiers_of
    (snd (@build example_env (OrderByChild (JString "age"))
            example_ref example_world))
    example_ref = [].
Proof.
  split; [simpl; lia|].
  pose proof (@builder_returns_new_reference_and_keeps_receiver example_env
                example_world example_ref (OrderByChild (JString "age"))
                ltac:(simpl; lia)) as P.
  destruct (@build example_env (OrderByChild (JString "age"))
              example_ref example_world) as [r w'].
  exact (proj1 P).
Defined.

(** The scenario of the spec: three chained builders give three modifiers
    in call order, and the base Reference keeps its empty sequence. *)
Example chained_builders :
  let chain :=
    let! a := @orderByChild example_env example_ref (JString "age") in
    let! b := @limitToFirst example_env a (JNumber 5) in
    @equalTo example_env b (JNumber 30) (JString "uid1") in
  let '(r, w') := chain example_world in
  match r with
  | Ret c =>
      map example_modifier_name (modifiers_of w' c) =
        ["orderByChild"; "limitToFirst"; "equalTo"] /\
      modifiers_of w' example_ref = []
  | Throw _ => False
  end.
Proof. vm_compute. split; reflexivity. Qed.

(** ** Serialisation *)

Section Serialisation.
Context `{Env}.

(** C2 (as the code has it). [null] is not a mapping for [isObject], so
    [_serializeAnyType(null)] takes the [typeof] branch; [typeof null] is
    "object", and the envelope is [{type: "object", value: null}], which
    is what [set(null)] sends over the bridge. *)
Theorem serializeAnyType_null_is_tagged_object
    (this : Reference) (native : NativeResult JsValue) (w : World) :
  isObject JNull = false /\
  typeof JNull = "object" /\
  _serializeAnyType JNull =
    JObject [("type", JString "object"); ("value", JNull)] /\
  snd (set this JNull native w) =
    with_trace w
      (trace w ++
       [NativeSet (path this)
          (JObject [("type", JString "object"); ("value", JNull)])]).
Proof.
  split; [reflexivity|]. split; [reflexivity|]. split; [reflexivity|].
  unfold set, promisify. unfold_monad. reflexivity.
Qed.

End Serialisation.

(** C2 as stated fails: the envelope of [null] is not
    [{type: "null", value: null}]. *)
Lemma serializeAnyType_null_is_not_tagged_null :
  @_serializeAnyType example_env JNull <>
  JObject [("type", JString "null"); ("value", JNull)].
Proof.
  cbv. intros E. discriminate E.
Qed.

(** ** once *)

Section Once.
Context `{Env}.

(** C3. When the bridge rejects the [once] call with a raw error, the
    error is first mapped by [_toFirebaseError].  Without an invocable
    [failureCallback] no callback is called and the pending result
    rejects with the mapped error.  With one, it is called once, with the
    mapped error, and [once] itself does not reject: the pending result
    ends as the callback ends, fulfilled with what it returns. *)
Theorem once_rejection_is_mapped
    (w : World) (this : Reference)
    (eventType successCallback failureCallback raw : JsValue) :
  let mapped := _toFirebaseError raw in
  let sent :=
    NativeOnce (path this) (key_of w this) (modifiers_of w this)
      (default_param eventType (JString "value")) in
  let run :=
    once this eventType successCallback failureCallback (Rejects raw) w in
  (isFunction failureCallback = false ->
     run = (Ret (Rejected mapped), with_trace w (trace w ++ [sent]))) /\
  (forall f, failureCallback = JFunction f ->
     run =
       (Ret (match invoke f [mapped] with
             | Ret v => Fulfilled v
             | Throw e => Rejected e
             end),
        with_trace w (trace w ++ [sent; Invoke f [mapped]]))).
Proof.
  intros mapped sent run. subst run sent mapped.
  unfold once, getModifiers, getModifiersString, promisify, then_, catch_,
    key_of, modifiers_of.
  unfold_monad. cbn [content arrays with_trace trace].
  split.
  - intros Hf. rewrite Hf. reflexivity.
  - intros f ->. cbn [isFunction call]. unfold_monad.
    cbn [trace with_trace arrays pushCount serverTimeOffset].
    rewrite <- app_assoc. cbn [app].
    destruct (invoke f [_toFirebaseError raw]); reflexivity.
Qed.

End Once.

Lemma once_rejection_witness :
  isFunction JUndefined = false /\
  fst (@once example_env example_ref JUndefined JUndefined JUndefined
         (Rejects (JString "permission_denied")) example_world) =
  Ret (Rejected
         (JObject [("code", JString "DATABASE/UNKNOWN");
                   ("nativeError", JString "permission_denied")])) /\
  fst (@once example_env example_ref JUndefined JUndefined (JFunction 1)
         (Rejects (JString "permission_denied")) example_world) =
  Ret (Fulfilled (JString "handled")).
Proof.
  split; [reflexivity|]. split.
  - rewrite (proj1 (@once_rejection_is_mapped example_env example_world
                      example_ref JUndefined JUndefined JUndefined
                      (JString "permission_denied")) eq_refl).
    reflexivity.
  - rewrite (proj2 (@once_rejection_is_mapped example_env example_world
                      example_ref JUndefined JUndefined (JFunction 1)
                      (JString "permission_denied")) 1 eq_refl).
    reflexivity.
Defined.

(** ** push *)

Section Push.
Context `{Env}.

(** With a value present and the bridge rejecting with [e]: an invocable
    [onComplete] is called with [(e, null)] and decides how the pending
    result ends; without one the catch handler returns [e], so the
    pending result is fulfilled with the error. *)
Lemma push_rejection_spec
    (w : World) (this : Reference) (value onComplete e : JsValue) :
  is_null_or_undefined value = false ->
  push this value onComplete (Rejects e) w =
  let sent := NativePush (path this) (_serializeAnyType value) in
  match onComplete with
  | JFunction f =>
      (Ret (PushedPromise
              (match invoke f [e; JNull] with
               | Ret v => Fulfilled v
               | Throw x => Rejected x
               end)),
       with_trace w (trace w ++ [sent; Invoke f [e; JNull]]))
  | _ =>
      (Ret (PushedPromise (Fulfilled e)), with_trace w (trace w ++ [sent]))
  end.
Proof.
  intros Hv. unfold push. rewrite Hv.
  unfold promisify, then_, catch_. unfold_monad.
  destruct onComplete; try reflexivity.
  cbn [isFunction call]. unfold_monad.
  cbn [trace with_trace arrays pushCount serverTimeOffset].
  rewrite <- app_assoc. cbn [app].
  destruct (invoke f [e; JNull]); reflexivity.
Qed.

(** C9. [push()] without a value makes no call to the bridge and to no
    callback: the trace is unchanged whatever the bridge would answer.
    It returns at once a new Reference, with an empty modifier array of
    its own, whose path is [this.path], a slash, and the identifier that
    [generatePushID] gives for the server-time offset of the database
    object. *)
Theorem push_without_value_is_local
    (w : World) (this : Reference) (onComplete : JsValue)
    (native : NativeResult string) :
  let id := generatePushID (serverTimeOffset w) (pushCount w) in
  let '(r, w') := push this JUndefined onComplete native w in
  r = Ret (PushedReference
             (mkReference (path this ++ "/" ++ id) (length (arrays w)))) /\
  trace w' = trace w /\
  arrays w' = (arrays w ++ [[]])%list /\
  pushCount w' = S (pushCount w) /\
  serverTimeOffset w' = serverTimeOffset w.
Proof.
  cbv zeta. unfold push. cbn [is_null_or_undefined].
  unfold next_push_id. unfold_new.
  cbn. done.
Qed.

(** C10. [push(null)] and [push(null, cb)] run as [push()] does: same
    Reference, same store, for every callback and every answer the
    bridge could give; nothing is sent and no callback is called. *)
Theorem push_null_is_push_without_value
    (w : World) (this : Reference) (onComplete : JsValue)
    (native native' : NativeResult string) :
  push this JNull onComplete native w =
    push this JUndefined JUndefined native' w /\
  trace (snd (push this JNull onComplete native w)) = trace w.
Proof.
  unfold push. cbn [is_null_or_undefined].
  unfold next_push_id. unfold_new.
  cbn. done.
Qed.

End Push.

(** C4 fails on the code: with no [onComplete], a push that the bridge
    rejects ends fulfilled, holding the error, not rejected. *)
Theorem push_rejection_without_callback_is_fulfilled :
  fst (@push example_env example_ref (JNumber 1) JUndefined
         (Rejects (JString "permission_denied")) example_world) =
  Ret (PushedPromise (Fulfilled (JString "permission_denied"))).
Proof.
  rewrite push_rejection_spec by reflexivity. reflexivity.
Qed.

(** ** on *)

Section On.
Context `{Env}.

(** C5. [on] throws at once when [successCallback] is not invocable, and
    when a [failureCallback] is provided (truthy, as the code tests it)
    and not invocable.  In every other case it registers path, encoded
    key, modifier list, event type and both callbacks with the database
    object, once, and returns [successCallback] itself. *)
Theorem on_validates_then_registers
    (w : World) (this : Reference)
    (eventType successCallback failureCallback : JsValue) :
  let run := on this eventType successCallback failureCallback w in
  (isFunction successCallback = false ->
     run = (Throw (new_Error "The specified callback must be a function"),
            w)) /\
  (isFunction successCallback = true ->
   truthy failureCallback = true ->
   isFunction failureCallback = false ->
     run =
       (Throw (new_Error "The specified error callback must be a function"),
        w)) /\
  (isFunction successCallback = true ->
   truthy failureCallback = false \/ isFunction failureCallback = true ->
     run =
       (Ret successCallback,
        with_trace w
          (trace w ++
           [DatabaseOn (path this) (key_of w this) (modifiers_of w this)
              eventType successCallback failureCallback]))).
Proof.
  intros run. subst run. unfold on.
  split; [|split].
  - intros ->. reflexivity.
  - intros -> -> ->. reflexivity.
  - intros -> Hf.
    assert (truthy failureCallback && negb (isFunction failureCallback)
            = false) as ->.
    { destruct Hf as [-> | ->]; [done|]. by rewrite andb_false_r. }
    reflexivity.
Qed.

End On.

Lemma on_validates_witness :
  isFunction (JFunction 0) = true /\
  truthy JUndefined = false /\
  @on example_env example_ref (JString "value") (JFunction 0) JUndefined
    example_world =
  (Ret (JFunction 0),
   mkWorld [[]]
     [DatabaseOn "/users" EmptyString [] (JString "value") (JFunction 0)
        JUndefined]
     0 0) /\
  isFunction JNull = false /\
  fst (@on example_env example_ref (JString "value") JNull JUndefined
         example_world) =
  Throw (new_Error "The specified callback must be a function") /\
  truthy (JString "log") = true /\
  isFunction (JString "log") = false /\
  fst (@on example_env example_ref (JString "value") (JFunction 0)
         (JString "log") example_world) =
  Throw (new_Error "The specified error callback must be a function").
Proof.
  split; [reflexivity|]. split; [reflexivity|]. split.
  { rewrite (proj2 (proj2 (@on_validates_then_registers example_env
               example_world example_ref (JString "value") (JFunction 0)
               JUndefined)) eq_refl (or_introl eq_refl)).
    reflexivity. }
  split; [reflexivity|]. split.
  { rewrite (proj1 (@on_validates_then_registers example_env
               example_world example_ref (JString "value") JNull
               JUndefined) eq_refl).
    reflexivity. }
  split; [reflexivity|]. split; [reflexivity|].
  rewrite (proj1 (proj2 (@on_validates_then_registers example_env
             example_world example_ref (JString "value") (JFunction 0)
             (JString "log"))) eq_refl eq_refl eq_refl).
  reflexivity.
Defined.

(** ** transaction *)

Section Transaction.
Context `{Env}.

(** One call of the completion adapter whose [onComplete], if it is a
    function, returns: the callback is called first, then exactly one of
    [reject] and [resolve]. *)
Lemma onCompleteWrapper_spec
    (w : World) (this : Reference)
    (onComplete error committed snapshotData : JsValue) :
  let snapshot := JSnapshot this snapshotData in
  let args :=
    if truthy error then [error; committed; JNull]
    else [JNull; committed; snapshot] in
  (forall f, onComplete = JFunction f -> exists v, invoke f args = Ret v) ->
  onCompleteWrapper (mkAdapter this onComplete) error committed snapshotData w
  = (Ret tt,
     with_trace w
       (trace w ++
        match onComplete with
        | JFunction f => [Invoke f args]
        | _ => []
        end ++
        [if truthy error then Reject error
         else Resolve (JObject [("committed", committed);
                                ("snapshot", snapshot)])])).
Proof.
  intros snapshot args Hreturns. subst snapshot args.
  unfold onCompleteWrapper. cbn [adapter_this adapter_onComplete].
  destruct (truthy error);
    (destruct onComplete;
     try (cbn; unfold_monad; reflexivity));
    (destruct (Hreturns f eq_refl) as [v Hv];
     cbn [typeof String.eqb Ascii.eqb Bool.eqb call];
     unfold_monad; rewrite Hv;
     cbn [trace with_trace arrays pushCount serverTimeOffset];
     rewrite <- app_assoc; reflexivity).
Qed.

(** C6 (as the code has it). When [transactionUpdate] is not invocable,
    [transaction] returns (it does not throw) a rejected pending result
    and nothing is handed to the transaction queue, whatever the queue
    would do.  Otherwise it hands the Reference, the update function,
    the completion adapter and [applyLocally] (false by default) to the
    queue.  A call of the adapter whose [onComplete] returns makes
    exactly one of [reject] and [resolve]: with an error,
    [onComplete(error, committed, null)] if [onComplete] is a function,
    then [reject(error)]; without, the data wrapped in a Snapshot of
    this Reference, [onComplete(null, committed, snapshot)] if it is a
    function, then [resolve({committed, snapshot})]; the pending result
    ends so.  A call of the adapter whose [onComplete] throws ends with
    that exception, after the callback and before [reject] or
    [resolve]: that call settles nothing. *)
Theorem transaction_rejects_or_delegates_and_settles_once
    (w : World) (this : Reference)
    (transactionUpdate onComplete applyLocally : JsValue)
    (error committed snapshotData : JsValue) :
  let adapter := mkAdapter this onComplete in
  let snapshot := JSnapshot this snapshotData in
  let result := JObject [("committed", committed); ("snapshot", snapshot)] in
  let args :=
    if truthy error then [error; committed; JNull]
    else [JNull; committed; snapshot] in
  let calls :=
    match onComplete with
    | JFunction f => [Invoke f args]
    | _ => []
    end in
  let settled := if truthy error then Reject error else Resolve result in
  let delegated :=
    TransactionAdd this transactionUpdate adapter
      (default_param applyLocally (JBool false)) in
  (isFunction transactionUpdate = false ->
     forall completions,
       transaction this transactionUpdate onComplete applyLocally
         completions w =
       (Ret (Rejected
               (new_Error "Missing transactionUpdate function argument.")),
        w)) /\
  (isFunction transactionUpdate = true ->
     transaction this transactionUpdate onComplete applyLocally [] w =
     (Ret Pending, with_trace w (trace w ++ [delegated]))) /\
  ((forall f, onComplete = JFunction f -> exists v, invoke f args = Ret v) ->
     onCompleteWrapper adapter error committed snapshotData w =
       (Ret tt, with_trace w (trace w ++ calls ++ [settled])) /\
     (isFunction transactionUpdate = true ->
        transaction this transactionUpdate onComplete applyLocally
          [(error, committed, snapshotData)] w =
        (Ret (if truthy error then Rejected error else Fulfilled result),
         with_trace w (trace w ++ [delegated] ++ calls ++ [settled])))) /\
  (forall f x,
     onComplete = JFunction f ->
     invoke f args = Throw x ->
     onCompleteWrapper adapter error committed snapshotData w =
       (Throw x, with_trace w (trace w ++ [Invoke f args])) /\
     (isFunction transactionUpdate = true ->
        transaction this transactionUpdate onComplete applyLocally
          [(error, committed, snapshotData)] w =
        (Ret Pending,
         with_trace w (trace w ++ [delegated; Invoke f args])))).
Proof.
  intros adapter snapshot result args calls settled delegated.
  assert (Hthrows : forall w0 f x,
    onComplete = JFunction f ->
    invoke f args = Throw x ->
    onCompleteWrapper adapter error committed snapshotData w0 =
      (Throw x, with_trace w0 (trace w0 ++ [Invoke f args]))).
  { intros w0 f x -> Hx. subst adapter args snapshot.
    unfold onCompleteWrapper. cbn [adapter_this adapter_onComplete].
    destruct (truthy error);
      cbn [typeof String.eqb Ascii.eqb Bool.eqb call];
      unfold_monad; rewrite Hx; reflexivity. }
  split; [|split; [|split]]; cycle 3.
  { intros f x Hoc Hx. split; [by apply Hthrows|].
    intros Hf. unfold transaction. rewrite Hf.
    cbn [negb run_completions]. unfold bind at 1. unfold emit at 1.
    fold adapter. rewrite (Hthrows _ f x Hoc Hx).
    unfold ret. cbn [trace with_trace arrays pushCount serverTimeOffset].
    rewrite <- app_assoc, drop_app_length.
    reflexivity. }
  - intros Hf completions. unfold transaction. rewrite Hf. reflexivity.
  - intros Hf. unfold transaction. rewrite Hf.
    cbn [negb run_completions]. unfold bind, emit, ret.
    cbn [trace with_trace]. rewrite drop_app_length. reflexivity.
  - intros Hreturns. split.
    + apply onCompleteWrapper_spec, Hreturns.
    + intros Hf. unfold transaction. rewrite Hf.
      cbn [negb run_completions]. unfold bind at 1. unfold emit at 1.
      rewrite onCompleteWrapper_spec by exact Hreturns.
      unfold ret. cbn [trace with_trace arrays pushCount serverTimeOffset].
      rewrite <- app_assoc, drop_app_length.
      fold adapter delegated args snapshot calls result settled.
      f_equal. f_equal.
      subst calls settled. cbn [app fold_left settle].
      destruct onComplete, (truthy error); reflexivity.
Qed.

End Transaction.

Lemma transaction_witness :
  isFunction (JFunction 0) = true /\
  (forall f, JFunction 1 = JFunction f ->
     exists v,
       example_invoke f
         [JString "aborted"; JBool false; JNull] = Ret v) /\
  @transaction example_env example_ref (JFunction 0) (JFunction 1)
    JUndefined [(JString "aborted", JBool false, JNull)] example_world =
  (Ret (Rejected (JString "aborted")),
   mkWorld [[]]
     [TransactionAdd example_ref (JFunction 0)
        (mkAdapter example_ref (JFunction 1)) (JBool false);
      Invoke 1 [JString "aborted"; JBool false; JNull];
      Reject (JString "aborted")]
     0 0) /\
  isFunction JNull = false /\
  @transaction example_env example_ref JNull (JFunction 1) JUndefined
    [(JString "aborted", JBool false, JNull)] example_world =
  (Ret (Rejected (new_Error "Missing transactionUpdate function argument.")),
   example_world) /\
  @transaction example_env example_ref (JFunction 0) (JFunction 1)
    JUndefined [] example_world =
  (Ret Pending,
   mkWorld [[]]
     [TransactionAdd example_ref (JFunction 0)
        (mkAdapter example_ref (JFunction 1)) (JBool false)]
     0 0) /\
  example_invoke 2 [JNull; JBool true; JSnapshot example_ref (JNumber 9)] =
    Throw (new_Error "callback failed") /\
  fst (@transaction example_env example_ref (JFunction 0) (JFunction 2)
         JUndefined [(JNull, JBool true, JNumber 9)] example_world) =
  Ret Pending.
Proof.
  assert (R : forall f, JFunction 1 = JFunction f ->
     exists v,
       example_invoke f
         [JString "aborted"; JBool false; JNull] = Ret v).
  { intros f E. injection E as <-. eexists. reflexivity. }
  pose proof (@transaction_rejects_or_delegates_and_settles_once example_env
                example_world example_ref (JFunction 0) (JFunction 1)
                JUndefined (JString "aborted") (JBool false) JNull) as P.
  pose proof (@transaction_rejects_or_delegates_and_settles_once example_env
                example_world example_ref JNull (JFunction 1)
                JUndefined (JString "aborted") (JBool false) JNull) as Q.
  pose proof (@transaction_rejects_or_delegates_and_settles_once example_env
                example_world example_ref (JFunction 0) (JFunction 2)
                JUndefined JNull (JBool true) (JNumber 9)) as T.
  split; [reflexivity|]. split; [exact R|]. split.
  { rewrite (proj2 (proj1 (proj2 (proj2 P)) R) eq_refl). reflexivity. }
  split; [reflexivity|]. split.
  { rewrite (proj1 Q eq_refl). reflexivity. }
  split.
  { rewrite (proj1 (proj2 P) eq_refl). reflexivity. }
  split; [reflexivity|].
  rewrite (proj2 (proj2 (proj2 (proj2 T)) 2 (new_Error "callback failed")
                    eq_refl eq_refl) eq_refl).
  reflexivity.
Defined.

(** C6 as stated fails: with an [onComplete] that throws, the call of
    the adapter makes neither [reject] nor [resolve]; the trace ends
    with the call of [onComplete] and the pending result stays
    pending. *)
Lemma transaction_with_throwing_onComplete :
  @transaction example_env example_ref (JFunction 0) (JFunction 2)
    JUndefined [(JString "aborted", JBool false, JNull)] example_world =
  (Ret Pending,
   mkWorld [[]]
     [TransactionAdd example_ref (JFunction 0)
        (mkAdapter example_ref (JFunction 2)) (JBool false);
      Invoke 2 [JString "aborted"; JBool false; JNull]]
     0 0).
Proof. reflexivity. Qed.

(** ** Paths: child and parent *)

Lemma lastIndexOf_slash_free (s : string) :
  slash_free s = true -> lastIndexOf "/" s = (-1)%Z.
Proof.
  induction s as [|a s IH]; [reflexivity|].
  cbn [slash_free lastIndexOf]. intros Hs.
  apply andb_prop in Hs as [Ha Hs]. rewrite (IH Hs).
  cbn [Z.leb Z.compare]. apply negb_true_iff in Ha. by rewrite Ha.
Qed.

Lemma lastIndexOf_nonneg_cons (a : ascii) (s : string) :
  (0 <= lastIndexOf "/" s)%Z ->
  lastIndexOf "/" (String a s) = (lastIndexOf "/" s + 1)%Z.
Proof.
  intros Hs. cbn [lastIndexOf].
  by apply Z.leb_le in Hs as ->.
Qed.

(** The last slash of [p/s] is the one that [child] inserts. *)
Lemma lastIndexOf_child (p s : string) :
  slash_free s = true ->
  lastIndexOf "/" (p ++ "/" ++ s) = Z.of_nat (String.length p).
Proof.
  intros Hs. induction p as [|a p IH].
  - change (EmptyString ++ "/" ++ s) with (String "/" s).
    cbn [lastIndexOf String.length].
    rewrite (lastIndexOf_slash_free s Hs). reflexivity.
  - change (String a p ++ "/" ++ s) with (String a (p ++ "/" ++ s)).
    cbn [String.length].
    rewrite lastIndexOf_nonneg_cons; rewrite IH; lia.
Qed.

Lemma length_append (p t : string) :
  String.length (p ++ t) = String.length p + String.length t.
Proof.
  induction p as [|a p IH]; [reflexivity|].
  change (String a p ++ t) with (String a (p ++ t)).
  cbn [String.length]. by rewrite IH.
Qed.

Lemma substring_prefix (p t : string) :
  substring 0 (String.length p) (p ++ t) = p.
Proof.
  induction p as [|a p IH].
  - change (EmptyString ++ t) with t. cbn [String.length]. by destruct t.
  - change (String a p ++ t) with (String a (p ++ t)).
    cbn [String.length substring]. by rewrite IH.
Qed.

Lemma js_substring_prefix (p t : string) :
  js_substring (p ++ t) 0 (Z.of_nat (String.length p)) = p.
Proof.
  unfold js_substring. rewrite length_append.
  replace (Z.max 0 (Z.min 0 (Z.of_nat (String.length p + String.length t))))
    with 0%Z by lia.
  replace (Z.max 0 (Z.min (Z.of_nat (String.length p))
                      (Z.of_nat (String.length p + String.length t))))
    with (Z.of_nat (String.length p)) by lia.
  replace (Z.min 0 (Z.of_nat (String.length p))) with 0%Z by lia.
  replace (Z.max 0 (Z.of_nat (String.length p)) - 0)%Z
    with (Z.of_nat (String.length p)) by lia.
  rewrite Nat2Z.id. apply substring_prefix.
Qed.

Lemma child_path_is_not_root (p s : string) :
  s <> EmptyString -> String.eqb (p ++ "/" ++ s) "/" = false.
Proof.
  intros Hs. apply String.eqb_neq. intros E.
  destruct p as [|a p].
  - change (EmptyString ++ "/" ++ s) with (String "/" s) in E.
    injection E as E. done.
  - change (String a p ++ "/" ++ s) with (String a (p ++ "/" ++ s)) in E.
    injection E as _ E. by destruct p.
Qed.

Section Paths.
Context `{Env}.

(** C7 (as the code has it). [child(p)] returns a new Reference whose
    path is [R.path], a slash, [p].  Its modifier array is a new one: the
    store grows by exactly one array, empty, at a location that held
    nothing before, and that is the array of the child, whatever
    modifiers [R] carries; nothing is sent to a collaborator.  For the
    root Reference and [p = "a"] the path is [//a]: the slash of the
    root and the separator both stay; its non-empty segments are those
    of [/a]. *)
Theorem child_appends_segment_with_fresh_modifiers
    (w : World) (R : Reference) (p : string) :
  let '(r, w') := child R p w in
  exists c,
    r = Ret c /\
    path c = path R ++ "/" ++ p /\
    query c = length (arrays w) /\
    arrays w !! query c = None /\
    arrays w' = (arrays w ++ [[]])%list /\
    arrays w' !! query c = Some [] /\
    modifiers_of w' c = [] /\
    key_of w' c = encodeModifiers [] /\
    trace w' = trace w /\
    (path R = "/" -> p = "a" ->
       path c = "//a" /\
       segments (path c) = segments "/a").
Proof.
  unfold child. unfold_new.
  eexists. split; [reflexivity|]. cbn [path query].
  split; [reflexivity|]. split; [reflexivity|].
  split; [by apply lookup_ge_None_2|].
  split; [reflexivity|].
  split; [cbn [arrays with_arrays]; by rewrite list_lookup_middle|].
  assert (Hm : modifiers_of (with_arrays w (arrays w ++ [[]]))
                 (mkReference (path R ++ "/" ++ p) (length (arrays w)))
               = []).
  { unfold modifiers_of. cbn [query]. apply content_alloc_new. }
  split; [exact Hm|].
  split; [unfold key_of; by rewrite Hm|].
  split; [reflexivity|].
  intros -> ->. repeat split.
Qed.

(** C8. The [parent] getter of the root Reference is [null].  For a
    Reference [R] and a segment [s] without a slash, such as "x", the
    parent of [child(R, s)] is a Reference with the path of [R]; and
    the parent of [/a/b] has path [/a]. *)
Theorem parent_of_root_is_null_and_parent_of_child_is_receiver
    (w : World) (R : Reference) (s : string) :
  (path R = "/" -> parent R w = (Ret None, w)) /\
  (slash_free s = true -> s <> EmptyString ->
     exists c w1 p w2,
       child R s w = (Ret c, w1) /\
       parent c w1 = (Ret (Some p), w2) /\
       path p = path R) /\
  (path R = "/a/b" ->
     exists p w', parent R w = (Ret (Some p), w') /\ path p = "/a").
Proof.
  split; [|split].
  - intros HR. unfold parent. rewrite HR. reflexivity.
  - intros Hs Hne.
    unfold child, parent. unfold_new.
    do 2 eexists. exists (mkReference (path R) (S (length (arrays w)))).
    eexists. split; [reflexivity|]. split; [|reflexivity].
    cbn [path].
    rewrite (child_path_is_not_root (path R) s Hne).
    rewrite (lastIndexOf_child (path R) s Hs), js_substring_prefix.
    cbn [arrays with_arrays]. rewrite length_app, Nat.add_1_r.
    reflexivity.
  - intros HR. unfold parent. unfold_new.
    rewrite HR. do 2 eexists. split; reflexivity.
Qed.

End Paths.

Lemma child_witness :
  path (mkReference "/" 0) = "/" /\
  exists c w',
    child (mkReference "/" 0) "a" example_world = (Ret c, w') /\
    path c = "//a" /\
    segments (path c) = ["a"] /\
    arrays w' = [[]; []].
Proof.
  split; [reflexivity|].
  pose proof (@child_appends_segment_with_fresh_modifiers example_env
                example_world (mkReference "/" 0) "a") as P.
  destruct (child (mkReference "/" 0) "a" example_world) as [r w'].
  destruct P as (c & -> & _ & _ & _ & Ha & _ & _ & _ & _ & Hroot).
  destruct (Hroot eq_refl eq_refl) as (Hp & Hs).
  exists c, w'. split; [reflexivity|]. split; [exact Hp|].
  split; [exact Hs|exact Ha].
Defined.

(** C7 as stated fails at the root: the child "a" of the Reference at
    [/] is at [//a], which is not [/a] and, with its doubled slash, not
    a normalised path. *)
Lemma child_of_root_is_not_at_slash_a :
  exists c w',
    child (mkReference "/" 0) "a" example_world = (Ret c, w') /\
    path c = "//a" /\
    path c <> "/a" /\
    doubled_slash (path c) = true.
Proof.
  do 2 eexists. split; [reflexivity|]. cbn [path].
  split; [reflexivity|]. split; [discriminate|reflexivity].
Qed.

Lemma parent_witness :
  slash_free "x" = true /\ "x" <> EmptyString /\
  (exists c w1 p w2,
     child example_ref "x" example_world = (Ret c, w1) /\
     parent c w1 = (Ret (Some p), w2) /\
     path p = "/users") /\
  parent (mkReference "/" 0) example_world = (Ret None, example_world) /\
  (exists p w',
     parent (mkReference "/a/b" 0) example_world = (Ret (Some p), w') /\
     path p = "/a").
Proof.
  split; [reflexivity|]. split; [discriminate|]. split; [|split].
  - exact (proj1 (proj2
             (parent_of_root_is_null_and_parent_of_child_is_receiver
                example_world example_ref "x"))
             eq_refl ltac:(discriminate)).
  - exact (proj1
             (parent_of_root_is_null_and_parent_of_child_is_receiver
                example_world (mkReference "/" 0) "x")
             eq_refl).
  - exact (proj2 (proj2
             (parent_of_root_is_null_and_parent_of_child_is_receiver
                example_world (mkReference "/a/b" 0) "x"))
             eq_refl).
Defined.

(** ** Chains and branches of builders *)

Section BuilderChains.
Context `{Env}.

(** A chain of fluent calls on [R] touches no array that existed and
    sends nothing to a collaborator.  When every setter accepts, it
    returns a Reference with the path of [R] whose modifiers are those
    of [R] with the setter calls of the chain applied in call order; the
    first refusal is thrown and ends the chain. *)
Theorem chained_builders_accumulate_in_call_order
    (bs : list Builder) (w : World) (R : Reference) :
  query R < length (arrays w) ->
  let '(r, w') := build_all bs R w in
  (forall l, l < length (arrays w) -> arrays w' !! l = arrays w !! l) /\
  trace w' = trace w /\
  match modifiers_after bs (modifiers_of w R) with
  | Ret ms =>
      exists c,
        r = Ret c /\
        path c = path R /\
        query c < length (arrays w') /\
        modifiers_of w' c = ms
  | Throw e => r = Throw e
  end.
Proof.
  revert w R. induction bs as [|b rest IH]; intros w R HR.
  - cbn [build_all modifiers_after]. unfold ret.
    split; [done|]. split; [done|]. by exists R.
  - cbn [build_all modifiers_after]. unfold bind at 1. rewrite build_spec.
    destruct (modifier_of b (modifiers_of w R)) as [ms'|e].
    + set (w1 := with_arrays w (arrays w ++ [ms'])).
      set (next := mkReference (path R) (length (arrays w))).
      assert (Hn : query next < length (arrays w1)).
      { cbn. rewrite length_app. cbn. lia. }
      specialize (IH w1 next Hn).
      assert (Hm : modifiers_of w1 next = ms') by apply content_alloc_new.
      rewrite Hm in IH.
      destruct (build_all rest next w1) as [r w'].
      destruct IH as (Hold & Htr & Hres).
      split; [|split].
      * intros l Hl. rewrite Hold.
        -- cbn. by rewrite lookup_app_l.
        -- cbn. rewrite length_app. lia.
      * by rewrite Htr.
      * destruct (modifiers_after rest ms'); [|done].
        destruct Hres as (c & -> & Hp & Hq & Hmod). by exists c.
    + split; [|split]; [|done|done].
      intros l Hl. cbn. by rewrite lookup_app_l.
Qed.

(** Two builders called on the same Reference do not see each other:
    each result holds the modifiers of [R] with its own one modifier, in
    an array of its own, and [R] keeps its modifiers. *)
Theorem builders_branch_independently
    (w : World) (R : Reference) (b1 b2 : Builder) (m1 m2 : list Modifier) :
  query R < length (arrays w) ->
  modifier_of b1 (modifiers_of w R) = Ret m1 ->
  modifier_of b2 (modifiers_of w R) = Ret m2 ->
  exists r1 r2 w',
    (let! r1 := build b1 R in
     let! r2 := build b2 R in
     ret (r1, r2)) w = (Ret (r1, r2), w') /\
    query r1 <> query r2 /\
    query r1 <> query R /\
    query r2 <> query R /\
    modifiers_of w' r1 = m1 /\
    modifiers_of w' r2 = m2 /\
    modifiers_of w' R = modifiers_of w R.
Proof.
  intros HR H1 H2.
  unfold bind. rewrite build_spec, H1, build_spec.
  assert (Hframe : forall ms,
    modifiers_of (with_arrays w (arrays w ++ [ms])) R = modifiers_of w R).
  { intros ms. by apply content_alloc_old. }
  rewrite Hframe, H2. unfold ret.
  do 3 eexists. split; [reflexivity|].
  cbn [query arrays with_arrays]. rewrite length_app. cbn [length].
  split; [lia|]. split; [lia|]. split; [lia|].
  unfold modifiers_of, content. cbn [query arrays with_arrays].
  split; [|split].
  - rewrite lookup_app_l by (rewrite length_app; cbn; lia).
    by rewrite list_lookup_middle.
  - rewrite (list_lookup_middle (arrays w ++ [m1]) [] m2)
      by (rewrite length_app; cbn; lia).
    done.
  - rewrite !lookup_app_l; [done|lia|rewrite length_app; cbn; lia].
Qed.

End BuilderChains.

Lemma chained_builders_witness :
  query example_ref < length (arrays example_world) /\
  exists c w',
    @build_all example_env
      [OrderByChild (JString "age"); LimitToFirst (JNumber 5)]
      example_ref example_world = (Ret c, w') /\
    path c = "/users" /\
    map example_modifier_name (modifiers_of w' c) =
      ["orderByChild"; "limitToFirst"].
Proof.
  split; [simpl; lia|].
  pose proof (@chained_builders_accumulate_in_call_order example_env
                [OrderByChild (JString "age"); LimitToFirst (JNumber 5)]
                example_world example_ref ltac:(simpl; lia)) as P.
  destruct (@build_all example_env
              [OrderByChild (JString "age"); LimitToFirst (JNumber 5)]
              example_ref example_world) as [r w'].
  destruct P as (_ & _ & c & -> & Hp & _ & Hm).
  exists c, w'. split; [reflexivity|]. split; [exact Hp|].
  rewrite Hm. reflexivity.
Defined.

Lemma builders_branch_witness :
  query example_ref < length (arrays example_world) /\
  exists r1 r2 w',
    (let! r1 := @build example_env OrderByKey example_ref in
     let! r2 := @build example_env (LimitToLast (JNumber 3)) example_ref in
     ret (r1, r2)) example_world = (Ret (r1, r2), w') /\
    map example_modifier_name (modifiers_of w' r1) = ["orderByKey"] /\
    map example_modifier_name (modifiers_of w' r2) = ["limitToLast"].
Proof.
  split; [simpl; lia|].
  destruct (@builders_branch_independently example_env example_world
              example_ref OrderByKey (LimitToLast (JNumber 3))
              _ _ ltac:(simpl; lia) eq_refl eq_refl)
    as (r1 & r2 & w' & Hrun & _ & _ & _ & Hm1 & Hm2 & _).
  exists r1, r2, w'. split; [exact Hrun|].
  rewrite Hm1, Hm2. split; reflexivity.
Defined.

(** ** Navigation composed *)

Lemma string_append_assoc (a b c : string) :
  (a ++ b) ++ c = a ++ (b ++ c).
Proof.
  induction a as [|x a IH]; [reflexivity|].
  change ((String x a ++ b) ++ c) with (String x ((a ++ b) ++ c)).
  change (String x a ++ (b ++ c)) with (String x (a ++ (b ++ c))).
  by rewrite IH.
Qed.

Lemma below_a_node_is_not_root (p t : string) :
  p <> EmptyString -> String.eqb (p ++ "/" ++ t) "/" = false.
Proof.
  intros Hp. apply String.eqb_neq. intros E.
  destruct p as [|a p]; [done|].
  change (String a p ++ "/" ++ t) with (String a (p ++ "/" ++ t)) in E.
  injection E as _ E. by destruct p.
Qed.

(** The parent of a Reference strictly below a node [p]. *)
Lemma parent_spec (w : World) (R : Reference) (p t : string) :
  path R = p ++ "/" ++ t ->
  slash_free t = true ->
  p <> EmptyString ->
  parent R w =
  (Ret (Some (mkReference p (length (arrays w)))),
   with_arrays w (arrays w ++ [[]])).
Proof.
  intros HR Ht Hp. unfold parent. rewrite HR.
  rewrite (below_a_node_is_not_root p t Hp).
  rewrite (lastIndexOf_child p t Ht), js_substring_prefix.
  reflexivity.
Qed.

(** [r.child(a).child(b)] and [r.child(a + "/" + b)] are References
    at the same path, both without modifiers. *)
Theorem child_of_child_is_child_of_joined_segments
    (w : World) (R : Reference) (a b : string) :
  exists c1 w1 c2 w2,
    (let! c := child R a in child c b) w = (Ret c1, w1) /\
    child R (a ++ "/" ++ b) w = (Ret c2, w2) /\
    path c1 = path c2 /\
    path c1 = path R ++ "/" ++ a ++ "/" ++ b /\
    modifiers_of w1 c1 = [] /\
    modifiers_of w2 c2 = [].
Proof.
  unfold child. unfold_new. do 4 eexists.
  split; [reflexivity|]. split; [reflexivity|].
  cbn [path].
  assert (E : (path R ++ "/" ++ a) ++ "/" ++ b
              = path R ++ "/" ++ a ++ "/" ++ b).
  { rewrite string_append_assoc. f_equal. }
  split; [exact E|]. split; [exact E|].
  unfold modifiers_of, content. cbn [query arrays with_arrays].
  split.
  - by rewrite list_lookup_middle.
  - by rewrite list_lookup_middle.
Qed.

(** For a Reference whose path is [p], a slash and a last segment [t]
    under a node [p]: the [parent] getter returns a new Reference at [p]
    that carries no modifier, whatever the Reference carries, with no
    call to a collaborator and no change to an existing array; and
    [child(t)] of that parent leads back to the path of the
    Reference. *)
Theorem parent_strips_the_last_segment_and_the_modifiers
    (w : World) (R : Reference) (p t : string) :
  query R < length (arrays w) ->
  path R = p ++ "/" ++ t ->
  slash_free t = true ->
  p <> EmptyString ->
  exists r w',
    parent R w = (Ret (Some r), w') /\
    path r = p /\
    modifiers_of w' r = [] /\
    query r <> query R /\
    modifiers_of w' R = modifiers_of w R /\
    trace w' = trace w /\
    (forall l, l < length (arrays w) -> arrays w' !! l = arrays w !! l) /\
    exists c w'', child r t w' = (Ret c, w'') /\ path c = path R.
Proof.
  intros Hq HR Ht Hp.
  rewrite (parent_spec w R p t HR Ht Hp).
  do 2 eexists. split; [reflexivity|]. cbn [path query].
  split; [reflexivity|].
  split; [apply content_alloc_new|].
  split; [lia|].
  split; [by apply content_alloc_old|].
  split; [reflexivity|].
  split; [intros l Hl; cbn; by rewrite lookup_app_l|].
  unfold child. unfold_new. do 2 eexists.
  split; [reflexivity|]. cbn [path]. by rewrite HR.
Qed.

(** The [root] getter of any Reference returns a new Reference at [/]
    without modifiers, and the [parent] getter of that one is [null]. *)
Theorem root_is_the_parentless_reference_without_modifiers
    (w : World) (R : Reference) :
  exists r w',
    root R w = (Ret r, w') /\
    path r = "/" /\
    modifiers_of w' r = [] /\
    trace w' = trace w /\
    (forall l, l < length (arrays w) -> arrays w' !! l = arrays w !! l) /\
    parent r w' = (Ret None, w').
Proof.
  unfold root. unfold_new. do 2 eexists.
  split; [reflexivity|]. cbn [path].
  split; [reflexivity|].
  split; [apply content_alloc_new|].
  split; [reflexivity|].
  split; [intros l Hl; cbn; by rewrite lookup_app_l|].
  reflexivity.
Qed.

Lemma parent_strips_witness :
  query (mkReference "/users/ada/age" 0) < length (arrays example_world) /\
  slash_free "age" = true /\
  "/users/ada" <> EmptyString /\
  exists r w',
    parent (mkReference "/users/ada/age" 0) example_world
      = (Ret (Some r), w') /\
    path r = "/users/ada".
Proof.
  split; [simpl; lia|]. split; [reflexivity|]. split; [discriminate|].
  destruct (parent_strips_the_last_segment_and_the_modifiers example_world
              (mkReference "/users/ada/age" 0) "/users/ada" "age"
              ltac:(simpl; lia) eq_refl eq_refl ltac:(discriminate))
    as (r & w' & Hrun & Hp & _).
  exists r, w'. split; [exact Hrun|exact Hp].
Defined.

(** ** Writes *)

Section Writes.
Context `{Env}.

(** The envelope of [_serializeAnyType] is tagged with [typeof value] in
    both branches and holds [_serializeObject(value)]: a value that is
    not a mapping travels unchanged, untouched by the JSON helpers, and
    a mapping travels as its JSON round trip. *)
Theorem serializeAnyType_tags_every_value_with_its_typeof
    (value : JsValue) :
  _serializeAnyType value =
    JObject [("type", JString (typeof value));
             ("value", _serializeObject value)] /\
  (isObject value = false -> _serializeObject value = value) /\
  (isObject value = true ->
     typeof value = "object" /\
     _serializeObject value = tryJSONParse (tryJSONStringify value)).
Proof.
  unfold _serializeAnyType, _serializeObject.
  destruct value; cbn [isObject negb typeof]; repeat split; discriminate.
Qed.

(** Writes go by path alone.  A Reference that a builder derived from
    [R] sends, for [set], [update], [remove], [keepSynced] and [push],
    exactly what [R] sends, with the same result: the modifiers of the
    query never reach a write. *)
Theorem writes_ignore_the_query_modifiers
    (w : World) (R : Reference) (b : Builder) (ms' : list Modifier) :
  modifier_of b (modifiers_of w R) = Ret ms' ->
  exists newRef w1,
    build b R w = (Ret newRef, w1) /\
    modifiers_of w1 newRef = ms' /\
    forall (value onComplete : JsValue)
           (native : NativeResult JsValue) (pushed : NativeResult string),
      set newRef value native w1 = set R value native w1 /\
      update newRef value native w1 = update R value native w1 /\
      remove newRef native w1 = remove R native w1 /\
      keepSynced newRef value native w1 = keepSynced R value native w1 /\
      push newRef value onComplete pushed w1 =
        push R value onComplete pushed w1.
Proof.
  intros Hb. rewrite build_spec, Hb. do 2 eexists.
  split; [reflexivity|].
  split; [apply content_alloc_new|].
  intros value onComplete native pushed.
  unfold set, update, remove, keepSynced, push. cbn [path].
  repeat split.
Qed.

(** What a write sends and how it ends: one call to the bridge, with the
    path and the serialised payload, no callback, no change to a query;
    the pending result is the answer of the bridge as it is, so a
    rejection carries the raw error, which [_toFirebaseError] never
    sees. *)
Theorem writes_forward_the_answer_of_the_bridge
    (w : World) (this : Reference) (value : JsValue)
    (native : NativeResult JsValue) :
  let answer :=
    match native with
    | Resolves a => Fulfilled a
    | Rejects e => Rejected e
    end in
  let after call := with_trace w (trace w ++ [call]) in
  set this value native w =
    (Ret answer, after (NativeSet (path this) (_serializeAnyType value))) /\
  update this value native w =
    (Ret answer, after (NativeUpdate (path this) (_serializeObject value))) /\
  remove this native w = (Ret answer, after (NativeRemove (path this))) /\
  keepSynced this value native w =
    (Ret answer, after (NativeKeepSynced (path this) value)).
Proof.
  unfold set, update, remove, keepSynced, promisify. unfold_monad.
  repeat split.
Qed.

End Writes.

Lemma serializeAnyType_witness :
  isObject (JNumber 7) = false /\
  isObject (JObject [("a", JNull)]) = true /\
  @_serializeAnyType example_env (JNumber 7) =
    JObject [("type", JString "number"); ("value", JNumber 7)] /\
  typeof (JObject [("a", JNull)]) = "object".
Proof.
  pose proof (@serializeAnyType_tags_every_value_with_its_typeof
                example_env (JNumber 7)) as (E & Hn & _).
  pose proof (@serializeAnyType_tags_every_value_with_its_typeof
                example_env (JObject [("a", JNull)])) as (_ & _ & Ho).
  split; [reflexivity|]. split; [reflexivity|]. split.
  - rewrite E, (Hn eq_refl). reflexivity.
  - exact (proj1 (Ho eq_refl)).
Defined.

Lemma writes_ignore_witness :
  @modifier_of example_env (LimitToFirst (JNumber 2))
    (modifiers_of example_world example_ref) =
    Ret [example_modifier "limit" "limitToFirst" [("limit", JNumber 2)]] /\
  exists newRef w1,
    @build example_env (LimitToFirst (JNumber 2)) example_ref example_world
      = (Ret newRef, w1) /\
    @set example_env newRef (JBool true) (Resolves JNull) w1 =
      @set example_env example_ref (JBool true) (Resolves JNull) w1.
Proof.
  split; [reflexivity|].
  destruct (@writes_ignore_the_query_modifiers example_env example_world
              example_ref (LimitToFirst (JNumber 2)) _ eq_refl)
    as (newRef & w1 & Hrun & _ & Hsame).
  exists newRef, w1. split; [exact Hrun|].
  exact (proj1 (Hsame (JBool true) JUndefined (Resolves JNull)
                  (Resolves "/users/x"))).
Defined.

(** ** Listeners and reads *)

Section ListenersAndReads.
Context `{Env}.

(** A call of [on] that passes validation. *)
Lemma on_registers
    (w : World) (this : Reference)
    (eventType successCallback failureCallback : JsValue) :
  isFunction successCallback = true ->
  truthy failureCallback = false \/ isFunction failureCallback = true ->
  on this eventType successCallback failureCallback w =
  (Ret successCallback,
   with_trace w
     (trace w ++
      [DatabaseOn (path this) (key_of w this) (modifiers_of w this)
         eventType successCallback failureCallback])).
Proof.
  intros Hs Hf. unfold on. rewrite Hs.
  assert (truthy failureCallback && negb (isFunction failureCallback)
          = false) as ->.
  { destruct Hf as [-> | ->]; [done|]. by rewrite andb_false_r. }
  reflexivity.
Qed.

(** [once], whatever the bridge answers. *)
Lemma once_spec
    (w : World) (this : Reference)
    (eventType successCallback failureCallback : JsValue)
    (native : NativeResult JsValue) :
  once this eventType successCallback failureCallback native w =
  let w0 :=
    with_trace w
      (trace w ++
       [NativeOnce (path this) (key_of w this) (modifiers_of w this)
          (default_param eventType (JString "value"))]) in
  match native with
  | Rejects raw => once_failure failureCallback raw w0
  | Resolves data =>
      let snapshot := JSnapshot this data in
      match successCallback with
      | JFunction f =>
          let w1 := with_trace w0 (trace w0 ++ [Invoke f [snapshot]]) in
          match invoke f [snapshot] with
          | Ret _ => (Ret (Fulfilled snapshot), w1)
          | Throw x => once_failure failureCallback x w1
          end
      | _ => (Ret (Fulfilled snapshot), w0)
      end
  end.
Proof.
  unfold once, getModifiers, getModifiersString, promisify, then_, catch_,
    key_of, modifiers_of, once_failure.
  unfold_monad. cbn [content arrays with_trace trace].
  destruct native as [data|raw].
  - destruct successCallback; try reflexivity.
    cbn [isFunction call adopt]. unfold_monad.
    cbn [trace with_trace arrays pushCount serverTimeOffset].
    destruct (invoke f [JSnapshot this data]) as [v|x]; [reflexivity|].
    cbn [adopt].
    destruct failureCallback; try reflexivity.
    cbn [isFunction call]. unfold_monad.
    cbn [trace with_trace arrays pushCount serverTimeOffset].
    destruct (invoke f0 [_toFirebaseError x]); reflexivity.
  - destruct failureCallback; try reflexivity.
    cbn [isFunction call]. unfold_monad.
    cbn [trace with_trace arrays pushCount serverTimeOffset].
    destruct (invoke f [_toFirebaseError raw]); reflexivity.
Qed.

(** After a builder derived [newRef] from [R], a listener registered
    through [newRef] is registered under the path of [R] with the
    derived modifiers and their key, and a listener registered through
    [R] afterwards still goes under the modifiers and the key that [R]
    had before the builder was called. *)
Theorem listeners_are_registered_under_the_receivers_query
    (w : World) (R : Reference) (b : Builder) (ms' : list Modifier)
    (eventType successCallback failureCallback : JsValue) :
  query R < length (arrays w) ->
  modifier_of b (modifiers_of w R) = Ret ms' ->
  isFunction successCallback = true ->
  truthy failureCallback = false \/ isFunction failureCallback = true ->
  exists newRef w1,
    build b R w = (Ret newRef, w1) /\
    on newRef eventType successCallback failureCallback w1 =
      (Ret successCallback,
       with_trace w1
         (trace w ++
          [DatabaseOn (path R) (encodeModifiers ms') ms'
             eventType successCallback failureCallback])) /\
    on R eventType successCallback failureCallback w1 =
      (Ret successCallback,
       with_trace w1
         (trace w ++
          [DatabaseOn (path R) (key_of w R) (modifiers_of w R)
             eventType successCallback failureCallback])).
Proof.
  intros HR Hb Hs Hf. rewrite build_spec, Hb. do 2 eexists.
  split; [reflexivity|].
  rewrite !on_registers by assumption.
  unfold key_of.
  rewrite (content_alloc_new w ms' : modifiers_of _ (mkReference _ _) = ms').
  rewrite (content_alloc_old w ms' (query R) HR
           : modifiers_of _ R = modifiers_of w R).
  split; reflexivity.
Qed.

(** [on] keeps no record of its own: two equal calls hand two equal
    registrations to the database object, under the same key, and
    change no query. *)
Theorem on_twice_registers_twice
    (w : World) (this : Reference)
    (eventType successCallback failureCallback : JsValue) :
  isFunction successCallback = true ->
  truthy failureCallback = false \/ isFunction failureCallback = true ->
  let registration :=
    DatabaseOn (path this) (key_of w this) (modifiers_of w this)
      eventType successCallback failureCallback in
  (on this eventType successCallback failureCallback ;;;
   on this eventType successCallback failureCallback) w =
  (Ret successCallback,
   with_trace w (trace w ++ [registration; registration])).
Proof.
  intros Hs Hf registration. subst registration.
  unfold bind. rewrite on_registers by assumption.
  rewrite on_registers by assumption.
  unfold key_of, modifiers_of, content, with_trace.
  cbn [arrays trace pushCount serverTimeOffset].
  by rewrite <- app_assoc.
Qed.

(** When the bridge answers a [once] call with data, the data is wrapped
    in a Snapshot of this Reference; an invocable [successCallback] is
    called once with it, and if it returns, or if there is none, the
    pending result is fulfilled with the Snapshot whatever the callback
    returned; [failureCallback] is not called. *)
Theorem once_success_delivers_the_snapshot
    (w : World) (this : Reference)
    (eventType successCallback failureCallback data : JsValue) :
  let snapshot := JSnapshot this data in
  let sent :=
    NativeOnce (path this) (key_of w this) (modifiers_of w this)
      (default_param eventType (JString "value")) in
  let run :=
    once this eventType successCallback failureCallback (Resolves data) w in
  (isFunction successCallback = false ->
     run = (Ret (Fulfilled snapshot), with_trace w (trace w ++ [sent]))) /\
  (forall f v,
     successCallback = JFunction f ->
     invoke f [snapshot] = Ret v ->
     run = (Ret (Fulfilled snapshot),
            with_trace w (trace w ++ [sent; Invoke f [snapshot]]))).
Proof.
  intros snapshot sent run. subst run. rewrite once_spec. cbv zeta.
  split.
  - intros Hs. destruct successCallback; try reflexivity. discriminate.
  - intros f v -> Hv. fold snapshot. rewrite Hv.
    unfold with_trace. cbn [arrays trace pushCount serverTimeOffset].
    by rewrite <- app_assoc.
Qed.

(** An exception [x] thrown by [successCallback] is handled as a
    failure of the read: it is mapped by [_toFirebaseError] and passed
    to an invocable [failureCallback], whose outcome ends the pending
    result; without one the pending result rejects with the mapped
    exception. *)
Theorem once_success_callback_exception_takes_the_failure_path
    (w : World) (this : Reference)
    (eventType failureCallback data x : JsValue) (f : nat) :
  let snapshot := JSnapshot this data in
  let sent :=
    NativeOnce (path this) (key_of w this) (modifiers_of w this)
      (default_param eventType (JString "value")) in
  let run :=
    once this eventType (JFunction f) failureCallback (Resolves data) w in
  invoke f [snapshot] = Throw x ->
  (isFunction failureCallback = false ->
     run = (Ret (Rejected (_toFirebaseError x)),
            with_trace w (trace w ++ [sent; Invoke f [snapshot]]))) /\
  (forall g,
     failureCallback = JFunction g ->
     run = (Ret (match invoke g [_toFirebaseError x] with
                 | Ret v => Fulfilled v
                 | Throw y => Rejected y
                 end),
            with_trace w
              (trace w ++
               [sent; Invoke f [snapshot];
                Invoke g [_toFirebaseError x]]))).
Proof.
  intros snapshot sent run Hx. subst run. rewrite once_spec. cbv zeta.
  fold snapshot. rewrite Hx. unfold once_failure.
  split.
  - intros Hf. destruct failureCallback; try discriminate;
      unfold with_trace; cbn [arrays trace pushCount serverTimeOffset];
      by rewrite <- app_assoc.
  - intros g ->.
    unfold with_trace. cbn [arrays trace pushCount serverTimeOffset].
    by rewrite <- !app_assoc.
Qed.

End ListenersAndReads.

Lemma listeners_witness :
  query example_ref < length (arrays example_world) /\
  isFunction (JFunction 0) = true /\
  truthy JUndefined = false /\
  exists newRef w1,
    @build example_env OrderByKey example_ref example_world
      = (Ret newRef, w1) /\
    fst (@on example_env newRef (JString "value") (JFunction 0) JUndefined
           w1) = Ret (JFunction 0) /\
    trace (snd (@on example_env example_ref (JString "value") (JFunction 0)
                  JUndefined w1)) =
      [DatabaseOn "/users" EmptyString [] (JString "value") (JFunction 0)
         JUndefined].
Proof.
  split; [simpl; lia|]. split; [reflexivity|]. split; [reflexivity|].
  destruct (@listeners_are_registered_under_the_receivers_query example_env
              example_world example_ref OrderByKey _ (JString "value")
              (JFunction 0) JUndefined ltac:(simpl; lia) eq_refl eq_refl
              (or_introl eq_refl))
    as (newRef & w1 & Hrun & Hnew & Hold).
  exists newRef, w1. split; [exact Hrun|].
  rewrite Hnew, Hold. split; reflexivity.
Defined.

Lemma on_twice_witness :
  isFunction (JFunction 0) = true /\
  isFunction (JFunction 1) = true /\
  trace (snd ((@on example_env example_ref (JString "child_added")
                 (JFunction 0) (JFunction 1) ;;;
               @on example_env example_ref (JString "child_added")
                 (JFunction 0) (JFunction 1)) example_world)) =
  [DatabaseOn "/users" EmptyString [] (JString "child_added") (JFunction 0)
     (JFunction 1);
   DatabaseOn "/users" EmptyString [] (JString "child_added") (JFunction 0)
     (JFunction 1)].
Proof.
  split; [reflexivity|]. split; [reflexivity|].
  rewrite (@on_twice_registers_twice example_env example_world example_ref
             (JString "child_added") (JFunction 0) (JFunction 1)
             eq_refl (or_intror eq_refl)).
  reflexivity.
Defined.

Lemma once_success_witness :
  isFunction JUndefined = false /\
  example_invoke 0 [JSnapshot example_ref (JNumber 4)] = Ret JUndefined /\
  fst (@once example_env example_ref JUndefined JUndefined JUndefined
         (Resolves (JNumber 4)) example_world) =
    Ret (Fulfilled (JSnapshot example_ref (JNumber 4))) /\
  fst (@once example_env example_ref JUndefined (JFunction 0) JUndefined
         (Resolves (JNumber 4)) example_world) =
    Ret (Fulfilled (JSnapshot example_ref (JNumber 4))).
Proof.
  split; [reflexivity|]. split; [reflexivity|]. split.
  - rewrite (proj1 (@once_success_delivers_the_snapshot example_env
                      example_world example_ref JUndefined JUndefined
                      JUndefined (JNumber 4)) eq_refl).
    reflexivity.
  - rewrite (proj2 (@once_success_delivers_the_snapshot example_env
                      example_world example_ref JUndefined (JFunction 0)
                      JUndefined (JNumber 4)) 0 JUndefined eq_refl eq_refl).
    reflexivity.
Defined.

Lemma once_exception_witness :
  example_invoke 2 [JSnapshot example_ref (JNumber 4)] =
    Throw (new_Error "callback failed") /\
  isFunction JUndefined = false /\
  fst (@once example_env example_ref JUndefined (JFunction 2) JUndefined
         (Resolves (JNumber 4)) example_world) =
    Ret (Rejected
           (JObject [("code", JString "DATABASE/UNKNOWN");
                     ("nativeError", new_Error "callback failed")])) /\
  fst (@once example_env example_ref JUndefined (JFunction 2) (JFunction 1)
         (Resolves (JNumber 4)) example_world) =
    Ret (Fulfilled (JString "handled")).
Proof.
  split; [reflexivity|]. split; [reflexivity|]. split.
  - rewrite (proj1 (@once_success_callback_exception_takes_the_failure_path
                      example_env example_world example_ref JUndefined
                      JUndefined (JNumber 4) (new_Error "callback failed") 2
                      eq_refl) eq_refl).
    reflexivity.
  - rewrite (proj2 (@once_success_callback_exception_takes_the_failure_path
                      example_env example_world example_ref JUndefined
                      (JFunction 1) (JNumber 4)
                      (new_Error "callback failed") 2 eq_refl) 1 eq_refl).
    reflexivity.
Defined.

(** ** push with a value *)

Section PushWithValue.
Context `{Env}.

(** [push] of a present value that the bridge answers with the path
    [ref] of the new child. *)
Lemma push_success_spec
    (w : World) (this : Reference) (value onComplete : JsValue)
    (ref : string) :
  is_null_or_undefined value = false ->
  push this value onComplete (Resolves ref) w =
  let newRef := mkReference ref (length (arrays w)) in
  let w1 :=
    mkWorld (arrays w ++ [[]])
      (trace w ++ [NativePush (path this) (_serializeAnyType value)])
      (pushCount w) (serverTimeOffset w) in
  match onComplete with
  | JFunction f =>
      let w2 :=
        with_trace w1 (trace w1 ++ [Invoke f [JNull; JReference newRef]]) in
      match invoke f [JNull; JReference newRef] with
      | Ret v => (Ret (PushedPromise (Fulfilled v)), w2)
      | Throw x =>
          (Ret (PushedPromise
                  (match invoke f [x; JNull] with
                   | Ret v => Fulfilled v
                   | Throw y => Rejected y
                   end)),
           with_trace w2 (trace w2 ++ [Invoke f [x; JNull]]))
      end
  | _ => (Ret (PushedPromise (Fulfilled (JReference newRef))), w1)
  end.
Proof.
  intros Hv. unfold push. rewrite Hv.
  unfold promisify, then_, catch_. unfold_new.
  cbn [trace with_trace arrays with_arrays pushCount serverTimeOffset].
  destruct onComplete; try reflexivity.
  cbn [isFunction call adopt]. unfold_monad.
  cbn [trace with_trace arrays with_arrays pushCount serverTimeOffset].
  destruct (invoke f [JNull; JReference _]) as [v|x]; [reflexivity|].
  cbn [adopt isFunction call]. unfold_monad.
  cbn [trace with_trace arrays with_arrays pushCount serverTimeOffset].
  destruct (invoke f [x; JNull]); reflexivity.
Qed.

(** A [push] of a value that the bridge accepts makes a Reference at
    the path the bridge returned, not at a path composed from
    [this.path], with an empty modifier array of its own.  Without an
    invocable [onComplete] the pending result is fulfilled with that
    Reference; with one, the callback is called with [(null, newRef)] and
    the pending result is fulfilled with what the callback returns. *)
Theorem push_success_hands_out_the_reference_of_the_bridge
    (w : World) (this : Reference) (value onComplete : JsValue)
    (ref : string) :
  is_null_or_undefined value = false ->
  let newRef := mkReference ref (length (arrays w)) in
  let sent := NativePush (path this) (_serializeAnyType value) in
  let '(r, w') := push this value onComplete (Resolves ref) w in
  modifiers_of w' newRef = [] /\
  (forall l, l < length (arrays w) -> arrays w' !! l = arrays w !! l) /\
  pushCount w' = pushCount w /\
  (isFunction onComplete = false ->
     r = Ret (PushedPromise (Fulfilled (JReference newRef))) /\
     trace w' = (trace w ++ [sent])%list) /\
  (forall f v,
     onComplete = JFunction f ->
     invoke f [JNull; JReference newRef] = Ret v ->
     r = Ret (PushedPromise (Fulfilled v)) /\
     trace w' =
       (trace w ++ [sent; Invoke f [JNull; JReference newRef]])%list).
Proof.
  intros Hv newRef sent. rewrite push_success_spec by exact Hv. cbv zeta.
  fold newRef sent.
  assert (Hm : forall t n o,
    modifiers_of (mkWorld (arrays w ++ [[]]) t n o) newRef = []).
  { intros t n o. unfold modifiers_of, content. cbn [query newRef arrays].
    by rewrite list_lookup_middle. }
  assert (Hold : forall l, l < length (arrays w) ->
    (arrays w ++ [[]])%list !! l = arrays w !! l).
  { intros l Hl. by rewrite lookup_app_l. }
  destruct onComplete;
    try (split; [apply Hm|]; split; [exact Hold|]; split; [reflexivity|];
         split; [intros _; split; reflexivity|];
         intros f0 v0 E; discriminate E).
  destruct (invoke f [JNull; JReference newRef]) as [v|x] eqn:Hf.
  - split; [apply Hm|]. split; [exact Hold|]. split; [reflexivity|].
    split; [intros E; discriminate E|].
    intros f0 v0 E Hf0. injection E as <-. rewrite Hf in Hf0.
    injection Hf0 as <-. split; [reflexivity|].
    cbn [trace with_trace]. by rewrite <- app_assoc.
  - split; [apply Hm|]. split; [exact Hold|]. split; [reflexivity|].
    split; [intros E; discriminate E|].
    intros f0 v0 E Hf0. injection E as <-. rewrite Hf in Hf0.
    discriminate Hf0.
Qed.

(** An [onComplete] that throws [x] when told of the success is called
    a second time, by the catch handler, with [(x, null)]; the pending
    result ends as that second call ends. *)
Theorem push_success_callback_exception_calls_the_callback_again
    (w : World) (this : Reference) (value x : JsValue) (f : nat)
    (ref : string) :
  is_null_or_undefined value = false ->
  let newRef := mkReference ref (length (arrays w)) in
  let sent := NativePush (path this) (_serializeAnyType value) in
  invoke f [JNull; JReference newRef] = Throw x ->
  let '(r, w') := push this value (JFunction f) (Resolves ref) w in
  r = Ret (PushedPromise
             (match invoke f [x; JNull] with
              | Ret v => Fulfilled v
              | Throw y => Rejected y
              end)) /\
  trace w' =
    (trace w ++
     [sent; Invoke f [JNull; JReference newRef]; Invoke f [x; JNull]])%list.
Proof.
  intros Hv newRef sent Hx. rewrite push_success_spec by exact Hv.
  cbv zeta. fold newRef sent. rewrite Hx.
  split; [reflexivity|].
  cbn [trace with_trace]. by rewrite <- !app_assoc.
Qed.

(** When the bridge rejects a [push] of a value with [e], an invocable
    [onComplete] is called once, with [(e, null)], the raw error; no
    Reference is made, and the pending result ends as the callback
    ends. *)
Theorem push_rejection_reaches_the_callback
    (w : World) (this : Reference) (value e : JsValue) (f : nat) :
  is_null_or_undefined value = false ->
  push this value (JFunction f) (Rejects e) w =
  (Ret (PushedPromise
          (match invoke f [e; JNull] with
           | Ret v => Fulfilled v
           | Throw x => Rejected x
           end)),
   with_trace w
     (trace w ++
      [NativePush (path this) (_serializeAnyType value);
       Invoke f [e; JNull]])).
Proof.
  intros Hv. by rewrite push_rejection_spec.
Qed.

End PushWithValue.

Lemma push_success_witness :
  is_null_or_undefined (JString "ada") = false /\
  isFunction JUndefined = false /\
  example_invoke 1
    [JNull; JReference (mkReference "/users/-K1" 1)] =
    Ret (JString "handled") /\
  fst (@push example_env example_ref (JString "ada") JUndefined
         (Resolves "/users/-K1") example_world) =
    Ret (PushedPromise
           (Fulfilled (JReference (mkReference "/users/-K1" 1)))) /\
  fst (@push example_env example_ref (JString "ada") (JFunction 1)
         (Resolves "/users/-K1") example_world) =
    Ret (PushedPromise (Fulfilled (JString "handled"))).
Proof.
  split; [reflexivity|]. split; [reflexivity|]. split; [reflexivity|].
  pose proof (@push_success_hands_out_the_reference_of_the_bridge
                example_env example_world example_ref (JString "ada")
                JUndefined "/users/-K1" eq_refl) as P.
  pose proof (@push_success_hands_out_the_reference_of_the_bridge
                example_env example_world example_ref (JString "ada")
                (JFunction 1) "/users/-K1" eq_refl) as Q.
  cbv zeta in P, Q.
  destruct (@push example_env example_ref (JString "ada") JUndefined
              (Resolves "/users/-K1") example_world) as [r1 w1].
  destruct (@push example_env example_ref (JString "ada") (JFunction 1)
              (Resolves "/users/-K1") example_world) as [r2 w2].
  destruct P as (_ & _ & _ & P & _).
  destruct Q as (_ & _ & _ & _ & Q).
  split.
  - exact (proj1 (P eq_refl)).
  - exact (proj1 (Q 1 (JString "handled") eq_refl eq_refl)).
Defined.

Lemma push_callback_exception_witness :
  is_null_or_undefined (JString "ada") = false /\
  example_invoke 2
    [JNull; JReference (mkReference "/users/-K1" 1)] =
    Throw (new_Error "callback failed") /\
  trace (snd (@push example_env example_ref (JString "ada") (JFunction 2)
                (Resolves "/users/-K1") example_world)) =
  [NativePush "/users"
     (JObject [("type", JString "string"); ("value", JString "ada")]);
   Invoke 2 [JNull; JReference (mkReference "/users/-K1" 1)];
   Invoke 2 [new_Error "callback failed"; JNull]].
Proof.
  split; [reflexivity|]. split; [reflexivity|].
  pose proof (@push_success_callback_exception_calls_the_callback_again
                example_env example_world example_ref (JString "ada")
                (new_Error "callback failed") 2 "/users/-K1"
                eq_refl eq_refl) as P.
  destruct (@push example_env example_ref (JString "ada") (JFunction 2)
              (Resolves "/users/-K1") example_world) as [r w'].
  exact (proj2 P).
Defined.

Lemma push_rejection_callback_witness :
  is_null_or_undefined (JNumber 1) = false /\
  fst (@push example_env example_ref (JNumber 1) (JFunction 1)
         (Rejects (JString "permission_denied")) example_world) =
  Ret (PushedPromise (Fulfilled (JString "handled"))).
Proof.
  split; [reflexivity|].
  rewrite (@push_rejection_reaches_the_callback example_env example_world
             example_ref (JNumber 1) (JString "permission_denied") 1
             eq_refl).
  reflexivity.
Defined.

(** ** transaction, completed more than once *)

Section TransactionCompletions.
Context `{Env}.

Lemma onCompleteWrapper_extends_trace
    (a : Adapter) (error committed snapshotData : JsValue) (w : World) :
  exists evs,
    trace (snd (onCompleteWrapper a error committed snapshotData w)) =
    (trace w ++ evs)%list.
Proof.
  unfold onCompleteWrapper.
  destruct (truthy error), (adapter_onComplete a);
    cbn [typeof String.eqb Ascii.eqb Bool.eqb call]; unfold_monad;
    cbn [trace with_trace snd];
    try (eexists; reflexivity);
    destruct (invoke f _);
    cbn [trace with_trace snd];
    try (eexists; reflexivity);
    rewrite <- app_assoc; eexists; reflexivity.
Qed.

Lemma run_completions_extends_trace
    (a : Adapter) (completions : list (JsValue * JsValue * JsValue))
    (w : World) :
  exists evs,
    trace (snd (run_completions a completions w)) = (trace w ++ evs)%list.
Proof.
  revert w. induction completions as [|[[e c] d] rest IH]; intros w.
  - exists []. cbn. by rewrite app_nil_r.
  - cbn [run_completions].
    destruct (onCompleteWrapper_extends_trace a e c d w) as [evs1 H1].
    destruct (onCompleteWrapper a e c d w) as [u w1]. cbn [snd] in H1.
    destruct (IH w1) as [evs2 H2].
    exists (evs1 ++ evs2)%list. by rewrite H2, H1, app_assoc.
Qed.

Lemma settled_stays_settled (evs : list Event) (p : Promise JsValue) :
  p <> Pending -> fold_left settle evs p = p.
Proof.
  revert p. induction evs as [|e evs IH]; intros p Hp; [done|].
  cbn [fold_left].
  assert (settle p e = p) as -> by (by destruct p, e).
  by apply IH.
Qed.

(** The first call of the adapter decides: when the queue calls the
    adapter again, whatever the later calls carry and however their
    [onComplete] ends, the pending result stays rejected with the first
    error, or fulfilled with the first [{committed, snapshot}]. *)
Theorem transaction_is_settled_by_the_first_completion
    (w : World) (this : Reference)
    (transactionUpdate onComplete applyLocally : JsValue)
    (error committed snapshotData : JsValue)
    (later : list (JsValue * JsValue * JsValue)) :
  let snapshot := JSnapshot this snapshotData in
  let args :=
    if truthy error then [error; committed; JNull]
    else [JNull; committed; snapshot] in
  isFunction transactionUpdate = true ->
  (forall f, onComplete = JFunction f -> exists v, invoke f args = Ret v) ->
  fst (transaction this transactionUpdate onComplete applyLocally
         ((error, committed, snapshotData) :: later) w) =
  Ret (if truthy error then Rejected error
       else Fulfilled (JObject [("committed", committed);
                                ("snapshot", snapshot)])).
Proof.
  intros snapshot args Hf Hreturns.
  unfold transaction. rewrite Hf.
  cbn [negb run_completions]. unfold bind at 1. unfold emit at 1.
  rewrite onCompleteWrapper_spec by exact Hreturns.
  match goal with
  | |- context [run_completions ?a later ?w2] =>
      destruct (run_completions_extends_trace a later w2) as [evs Hevs];
      destruct (run_completions a later w2) as [u w3]
  end.
  cbn [snd trace with_trace] in Hevs. cbn [fst]. rewrite Hevs.
  rewrite <- !app_assoc, drop_app_length.
  subst snapshot.
  destruct onComplete, (truthy error); cbn [app fold_left settle];
    rewrite settled_stays_settled by discriminate; reflexivity.
Qed.

End TransactionCompletions.

Lemma transaction_first_completion_witness :
  isFunction (JFunction 0) = true /\
  (forall f, JFunction 1 = JFunction f ->
     exists v,
       example_invoke f [JString "aborted"; JBool false; JNull] = Ret v) /\
  fst (@transaction example_env example_ref (JFunction 0) (JFunction 1)
         JUndefined
         [(JString "aborted", JBool false, JNull);
          (JNull, JBool true, JNumber 9)]
         example_world) =
  Ret (Rejected (JString "aborted")).
Proof.
  assert (R : forall f, JFunction 1 = JFunction f ->
     exists v,
       example_invoke f [JString "aborted"; JBool false; JNull] = Ret v).
  { intros f E. injection E as <-. eexists. reflexivity. }
  split; [reflexivity|]. split; [exact R|].
  exact (@transaction_is_settled_by_the_first_completion example_env
           example_world example_ref (JFunction 0) (JFunction 1) JUndefined
           (JString "aborted") (JBool false) JNull
           [(JNull, JBool true, JNumber 9)] eq_refl R).
Defined.
